(** * flight-service: the position-update engine of [server.js]

    A shallow embedding of the geodesy helpers ([bearingDegrees], [move],
    [distanceKm]), the airport catalog, the flight generator ([makeFlight],
    [pickDifferentAirports]) and the tick engine ([tick]).

    Conventions of the embedding.
    - A JavaScript Number is a real number: arithmetic is exact, there is no
      NaN, no infinity and a single zero.  [Math.sin], [Math.cos],
      [Math.asin], [Math.sqrt] are the functions of the real library;
      [Math.atan2] and the remainder operator [%] are written out below.
      Module [Binary64] replays, in IEEE binary64, the two sampling
      expressions of the generator, where rounding decides the outcome.
      Rounding is not shown anywhere else: on binary64 the positions
      differ from the exact ones in their last digits, and the argument of
      [Math.asin] can round to just above 1, which gives NaN.
    - [Date.now()] is an argument [now], a whole number of milliseconds.
    - [Math.random()] reads the next element of an explicit sequence of
      draws.  A computation is a function from the draws still to come to
      an [outcome]: a value with the draws left over, [MoreDraws] when the
      supplied draws ended before the computation did (the resampling loop
      of [pickDifferentAirports] was still running), or [TypeError] when
      the source reads [.iata] of [undefined].
    - [tick] mutates its argument and returns it; the embedding returns the
      updated record. *)

From Stdlib Require Import Reals Lra Lia ZArith List String Ascii.
From Stdlib Require Import Decimal DecimalString.
From Stdlib Require PrimFloat FloatOps SpecFloat.
Import ListNotations.

Local Open Scope R_scope.

(* ================================================================== *)
(** ** Numbers *)
(* ================================================================== *)

(** [Math.floor]. *)
Definition Math_floor (x : R) : Z := Zfloor x.

(** Truncation toward zero, the integer quotient behind [%]. *)
Definition Ztrunc (x : R) : Z :=
  if Rle_dec 0 x then Zfloor x else Zceil x.

(** [x % y]: the remainder takes the sign of the dividend. *)
Definition js_rem (x y : R) : R := x - y * IZR (Ztrunc (x / y)).

(** [Math.atan2(y, x)]. *)
Definition Math_atan2 (y x : R) : R :=
  if Rlt_dec 0 x then atan (y / x)
  else if Rlt_dec x 0 then
         if Rle_dec 0 y then atan (y / x) + PI else atan (y / x) - PI
  else if Rlt_dec 0 y then PI / 2
  else if Rlt_dec y 0 then - (PI / 2)
  else 0.

(** [Math.max]. *)
Definition Math_max (x y : R) : R := Rmax x y.

(* ================================================================== *)
(** ** Data model *)
(* ================================================================== *)

(** An object with [lat] and [lon], both in degrees. *)
Record Point : Type := mkPoint { lat : R; lon : R }.

Record Airport : Type := mkAirport {
  iata : string;
  name : string;
  a_lat : R;
  a_lon : R
}.

(** An airport read as a point: the geodesy helpers only look at [lat]
    and [lon]. *)
Definition at_airport (a : Airport) : Point := mkPoint (a_lat a) (a_lon a).

Record Flight : Type := mkFlight {
  id : string;
  callsign : string;
  from : string;
  to : string;
  f_lat : R;
  f_lon : R;
  heading : R;
  speedKts : R;
  altitudeFt : R;
  createdAt : Z;
  updatedAt : Z
}.

Definition position (f : Flight) : Point := mkPoint (f_lat f) (f_lon f).

Definition JFK := mkAirport "JFK" "John F. Kennedy Intl" 40.6413 (-73.7781).
Definition LAX := mkAirport "LAX" "Los Angeles Intl" 33.9416 (-118.4085).
Definition ORD := mkAirport "ORD" "Chicago O'Hare Intl" 41.9742 (-87.9073).
Definition DFW := mkAirport "DFW" "Dallas/Fort Worth Intl" 32.8998 (-97.0403).
Definition YYZ := mkAirport "YYZ" "Toronto Pearson" 43.6777 (-79.6248).
Definition CDG := mkAirport "CDG" "Paris Charles de Gaulle" 49.0097 2.5479.
Definition LHR := mkAirport "LHR" "London Heathrow" 51.4700 (-0.4543).
Definition DXB := mkAirport "DXB" "Dubai Intl" 25.2532 55.3657.
Definition HND := mkAirport "HND" "Tokyo Haneda" 35.5494 139.7798.
Definition SYD := mkAirport "SYD" "Sydney" (-33.9399) 151.1753.

Definition AIRPORTS : list Airport :=
  [JFK; LAX; ORD; DFW; YYZ; CDG; LHR; DXB; HND; SYD].

(* ================================================================== *)
(** ** Geodesy *)
(* ================================================================== *)

(** Compute initial bearing degrees between two points. *)
Definition bearingDegrees (p q : Point) : R :=
  let phi1 := lat p * PI / 180 in
  let phi2 := lat q * PI / 180 in
  let dlam := (lon q - lon p) * PI / 180 in
  let y := sin dlam * cos phi2 in
  let x := cos phi1 * sin phi2 - sin phi1 * cos phi2 * cos dlam in
  let theta := Math_atan2 y x in
  js_rem (theta * 180 / PI + 360) 360.

(** Move a lat/lon by distance (km) along a bearing (deg). *)
Definition move (p : Point) (bearingDeg distKm : R) : Point :=
  let R0 := 6371 in
  let delta := distKm / R0 in
  let theta := bearingDeg * PI / 180 in
  let phi1 := lat p * PI / 180 in
  let lam1 := lon p * PI / 180 in
  let sinphi1 := sin phi1 in
  let cosphi1 := cos phi1 in
  let sindelta := sin delta in
  let cosdelta := cos delta in
  let sintheta := sin theta in
  let costheta := cos theta in
  let sinphi2 := sinphi1 * cosdelta + cosphi1 * sindelta * costheta in
  let phi2 := asin sinphi2 in
  let y := sintheta * sindelta * cosphi1 in
  let x := cosdelta - sinphi1 * sinphi2 in
  let lam2 := lam1 + Math_atan2 y x in
  mkPoint (phi2 * 180 / PI) (js_rem (lam2 * 180 / PI + 540) 360 - 180).

(** Haversine distance (km). *)
Definition distanceKm (a b : Point) : R :=
  let R0 := 6371 in
  let phi1 := lat a * PI / 180 in
  let phi2 := lat b * PI / 180 in
  let dphi := (lat b - lat a) * PI / 180 in
  let dlam := (lon b - lon a) * PI / 180 in
  let s := (sin (dphi / 2)) ^ 2 + cos phi1 * cos phi2 * (sin (dlam / 2)) ^ 2 in
  2 * R0 * asin (sqrt s).

(* ================================================================== *)
(** ** Computations that draw random numbers *)
(* ================================================================== *)

(** How a run over a finite supply of draws ends: with a value and the
    draws it left, still wanting a draw when the supply ended, or by
    throwing a TypeError. *)
Inductive outcome (A : Type) : Type :=
| Done (a : A) (rest : list R)
| MoreDraws
| TypeError.

Arguments Done {A} a rest.
Arguments MoreDraws {A}.
Arguments TypeError {A}.

Definition Rand (A : Type) : Type := list R -> outcome A.

Definition ret {A} (a : A) : Rand A := fun ds => Done a ds.

Definition bind {A B} (c : Rand A) (k : A -> Rand B) : Rand B :=
  fun ds => match c ds with
            | Done a ds' => k a ds'
            | MoreDraws => MoreDraws
            | TypeError => TypeError
            end.

Declare Scope rand_scope.
Delimit Scope rand_scope with rand.
Notation "x <- c ;; k" := (bind c (fun x => k))
  (at level 61, c at next level, right associativity) : rand_scope.
Notation "' pat <- c ;; k" := (bind c (fun x => match x with pat => k end))
  (at level 61, pat pattern, c at next level, right associativity) : rand_scope.

(** [Math.random()]. *)
Definition Math_random : Rand R :=
  fun ds => match ds with
            | [] => MoreDraws
            | r :: rest => Done r rest
            end.

(** A draw as [Math.random] delivers it. *)
Definition unit_draw (r : R) : Prop := 0 <= r < 1.

(* ================================================================== *)
(** ** Flight generator *)
(* ================================================================== *)

(** [arr[i]] for a number [i]: [undefined] ([None]) outside the table. *)
Definition js_index {A} (l : list A) (i : Z) : option A :=
  if (i <? 0)%Z then None else nth_error l (Z.to_nat i).

(** [AIRPORTS[Math.floor(r*AIRPORTS.length)]] for a draw [r]. *)
Definition airportAt (r : R) : option Airport :=
  js_index AIRPORTS (Math_floor (r * INR (List.length AIRPORTS))).

(** [while (to.iata === from.iata) to = AIRPORTS[...]; return { from, to }]:
    one iteration per draw; reading [.iata] of [undefined] throws. *)
Fixpoint resample (origin dest : option Airport) (ds : list R)
  : outcome (Airport * Airport) :=
  match dest, origin with
  | Some d, Some o =>
      if String.eqb (iata d) (iata o) then
        match ds with
        | [] => MoreDraws
        | r :: rest => resample origin (airportAt r) rest
        end
      else Done (o, d) ds
  | _, _ => TypeError
  end.

Definition pickDifferentAirports : Rand (Airport * Airport) :=
  (r1 <- Math_random ;;
   r2 <- Math_random ;;
   resample (airportAt r1) (airportAt r2))%rand.

(** [String(n)] for an integer [n]. *)
Definition String_of_int (n : Z) : string :=
  NilZero.string_of_int (Z.to_int n).

Fixpoint zeros (k : nat) : string :=
  match k with
  | O => EmptyString
  | S k' => String "0"%char (zeros k')
  end.

(** [s.padStart(width, '0')]. *)
Definition padStart0 (width : nat) (s : string) : string :=
  (zeros (width - String.length s) ++ s)%string.

Definition makeFlight (id0 : string) (now : Z) : Rand Flight :=
  ('(origin, dest) <- pickDifferentAirports ;;
   let heading0 := bearingDegrees (at_airport origin) (at_airport dest) in
   r1 <- Math_random ;;
   let speed := IZR (Math_floor (380 + r1 * 180)) in
   r2 <- Math_random ;;
   let altitude := IZR (Math_floor (28000 + r2 * 12000)) in
   r3 <- Math_random ;;
   let cs := ("CC" ++ padStart0 4 (String_of_int (Math_floor (r3 * 9999))))%string in
   r4 <- Math_random ;;
   let start := move (mkPoint (a_lat origin) (a_lon origin)) heading0 (r4 * 50 + 10) in
   ret (mkFlight id0 cs (iata origin) (iata dest) (lat start) (lon start)
          heading0 speed altitude now now))%rand.

(* ================================================================== *)
(** ** Tick engine *)
(* ================================================================== *)

(** [AIRPORTS.find(a => a.iata === code)]. *)
Definition findAirport (code : string) : option Airport :=
  find (fun a => String.eqb (iata a) code) AIRPORTS.

(** Lines 111-118 of [tick]: project the position and stamp the time. *)
Definition advance (f : Flight) (now : Z) (dtHours : R) : Flight :=
  let kmPerHr := speedKts f * 1.852 in
  let stepKm := kmPerHr * dtHours in
  let next := move (mkPoint (f_lat f) (f_lon f)) (heading f) stepKm in
  mkFlight (id f) (callsign f) (from f) (to f) (lat next) (lon next)
    (heading f) (speedKts f) (altitudeFt f) (createdAt f) now.

(** Lines 123-126: the body of the arrival branch. *)
Definition reroute (f : Flight) : Rand Flight :=
  ('(origin, dest) <- pickDifferentAirports ;;
   ret (mkFlight (id f) (callsign f) (iata origin) (iata dest) (f_lat f) (f_lon f)
          (bearingDegrees (at_airport origin) (at_airport dest))
          (speedKts f) (altitudeFt f) (createdAt f) (updatedAt f)))%rand.

(** The test of line 122: [dest && distanceKm(...) < 30]. *)
Definition arrived (f : Flight) : bool :=
  match findAirport (to f) with
  | Some dest =>
      if Rlt_dec (distanceKm (mkPoint (f_lat f) (f_lon f)) (at_airport dest)) 30
      then true else false
  | None => false
  end.

(** Line 130: the heading wander. *)
Definition wander (f : Flight) : Rand Flight :=
  (r <- Math_random ;;
   ret (mkFlight (id f) (callsign f) (from f) (to f) (f_lat f) (f_lon f)
          (js_rem (heading f + (r * 2 - 1) * 2) 360)
          (speedKts f) (altitudeFt f) (createdAt f) (updatedAt f)))%rand.

(** Advance flight along route by elapsed time since last update. *)
Definition tick (f : Flight) (now : Z) : Rand Flight :=
  let dtHours := Math_max 0 (IZR (now - updatedAt f)) / 3600000 in
  if Rle_dec dtHours 0 then ret f
  else
    let f1 := advance f now dtHours in
    (f2 <- (if arrived f1 then reroute f1 else ret f1) ;;
     wander f2)%rand.

(** Flights the service can hold: those built by [makeFlight] at startup
    and whatever [tick] turns them into, for any clock and any draws. *)
Inductive reachable : Flight -> Prop :=
| reach_make (id0 : string) (now : Z) (ds ds' : list R) (f : Flight) :
    makeFlight id0 now ds = Done f ds' -> reachable f
| reach_tick (f f' : Flight) (now : Z) (ds ds' : list R) :
    reachable f -> tick f now ds = Done f' ds' -> reachable f'.

(** The elapsed time of line 109 when it is positive, in hours. *)
Definition elapsedHours (f : Flight) (now : Z) : R :=
  IZR (now - updatedAt f) / 3600000.

(** The longitudes a GeoPoint may have, in degrees. *)
Definition valid_lon (x : R) : Prop := -180 <= x <= 180.

(* ================================================================== *)
(** ** The sampling expressions in IEEE binary64 *)
(* ================================================================== *)

(** The generator's [Math.floor(380 + Math.random()*180)] and
    [Math.floor(28000 + Math.random()*12000)] land on the upper end of
    their interval only through rounding; here they are evaluated with
    the machine operations. *)
Module Binary64.

Import PrimFloat FloatOps SpecFloat.

(** The integer [Math.floor(x)] of a finite double. *)
Definition floor_b64 (x : float) : option Z :=
  match Prim2SF x with
  | S754_zero _ => Some 0%Z
  | S754_finite s m e =>
      let v := if s then Z.neg m else Z.pos m in
      Some (if (0 <=? e)%Z then (v * 2 ^ e)%Z else Z.shiftr v (- e))
  | S754_infinity _ => None
  | S754_nan => None
  end.

(** Line 76. *)
Definition speed_sample (r : float) : option Z :=
  floor_b64 (380 + r * 180)%float.

(** Line 77. *)
Definition altitude_sample (r : float) : option Z :=
  floor_b64 (28000 + r * 12000)%float.

(** The largest draw of a generator with 52 random bits: 1 - 2^-52,
    printed 0.9999999999999998. *)
Definition last_draw : float := (1 - Z.ldexp 1 (-52))%float.

(** The largest draw of a generator with 53 random bits: 1 - 2^-53. *)
Definition last_draw53 : float := (1 - Z.ldexp 1 (-53))%float.

(** A draw in the middle of the interval. *)
Definition mid_draw : float := 0.5%float.

(** Whether a double is a draw of [Math.random]: in [[0,1)]. *)
Definition unit_draw_b64 (r : float) : bool :=
  ((0 <=? r) && (r <? 1))%float%bool.

End Binary64.

(* ================================================================== *)
(** ** Concrete flights used as examples *)
(* ================================================================== *)

(** A flight a few kilometres south of LAX, on its meridian, flying due
    north toward it. *)
Definition inbound_LAX : Flight :=
  mkFlight "V1StGXR8" "CC0042" "SYD" "LAX" 33.9 (-118.4085) 0 480 35000 0 0.

(** A flight south of SYD, on its meridian, some 670 km out, flying due
    north. *)
Definition cruising_SYD : Flight :=
  mkFlight "Z5a1xk9Q" "CC0815" "LAX" "SYD" (-40) 151.1753 0 480 35000 0 0.

(** A flight whose destination code is not in the catalog. *)
Definition stray : Flight :=
  mkFlight "p0Qw3e7R" "CC0007" "JFK" "XXX" 10 20 90 480 35000 0 0.

(** The draws of one run of [makeFlight]: origin, destination, speed,
    altitude, callsign, starting offset. *)
Definition sample_draws : list R := [0.05; 0.15; 0.5; 0.5; 0.5; 0.5].

(** The flight that run builds. *)
Definition generated : Flight :=
  let heading0 := bearingDegrees (at_airport JFK) (at_airport LAX) in
  let start := move (mkPoint 40.6413 (-73.7781)) heading0 (0.5 * 50 + 10) in
  mkFlight "V1StGXR8" "CC4999" "JFK" "LAX" (lat start) (lon start)
    heading0 470 34000 1700000000000 1700000000000.

(** Where one second of flight takes [inbound_LAX]. *)
Definition inbound_LAX_moved : Flight :=
  mkFlight "V1StGXR8" "CC0042" "SYD" "LAX"
    (33.9 + 480 * 1.852 * (1000 / 3600000) / 6371 * 180 / PI) (-118.4085)
    0 480 35000 0 1000.

(** The same flight re-routed from JFK to LAX, with a zero wander. *)
Definition inbound_LAX_rerouted : Flight :=
  mkFlight "V1StGXR8" "CC0042" "JFK" "LAX"
    (33.9 + 480 * 1.852 * (1000 / 3600000) / 6371 * 180 / PI) (-118.4085)
    (bearingDegrees (at_airport JFK) (at_airport LAX)) 480 35000 0 1000.

(** Where one minute of flight takes [cruising_SYD], after a wander of
    -1.5 degrees. *)
Definition cruising_SYD_ticked : Flight :=
  mkFlight "Z5a1xk9Q" "CC0815" "LAX" "SYD"
    (-40 + 480 * 1.852 * (60000 / 3600000) / 6371 * 180 / PI) 151.1753
    (-1.5) 480 35000 0 60000.

(* ================================================================== *)
(** ** The flight store and the two read handlers *)
(* ================================================================== *)

(** [FLIGHTS]: a [Map] from id to flight object, kept in insertion
    order. *)
Definition Store : Type := list (string * Flight).

(** [FLIGHTS.get(id)]. *)
Fixpoint store_get (s : Store) (k : string) : option Flight :=
  match s with
  | [] => None
  | (k', f) :: s' => if String.eqb k' k then Some f else store_get s' k
  end.

(** [FLIGHTS.set(id, f)]: an existing key keeps its place, a new key goes
    to the end. *)
Fixpoint store_set (s : Store) (k : string) (f : Flight) : Store :=
  match s with
  | [] => [(k, f)]
  | (k', f') :: s' =>
      if String.eqb k' k then (k', f) :: s' else (k', f') :: store_set s' k f
  end.

(** [FLIGHTS.keys()] and [FLIGHTS.values()]. *)
Definition store_keys (s : Store) : list string := map fst s.
Definition store_values (s : Store) : list Flight := map snd s.

(** The readings of a clock, or the ids of [nanoid], after the first. *)
Definition later {A} (src : nat -> A) : nat -> A := fun i => src (S i).

Definition FLIGHT_COUNT : nat := 20.

(** Lines 101-104: [n] rounds of [id = nanoid(8); FLIGHTS.set(id,
    makeFlight(id))].  [nanoid i] is the id of the i-th call and
    [clock i] the i-th reading of [Date.now()]. *)
Fixpoint populate (n : nat) (nanoid : nat -> string) (clock : nat -> Z)
  (s : Store) : Rand Store :=
  match n with
  | O => ret s
  | S n' =>
      (f <- makeFlight (nanoid O) (clock O) ;;
       populate n' (later nanoid) (later clock) (store_set s (nanoid O) f))%rand
  end.

(** The store as the module leaves it at startup. *)
Definition FLIGHTS (nanoid : nat -> string) (clock : nat -> Z) : Rand Store :=
  populate FLIGHT_COUNT nanoid clock [].

(** What a handler sends. *)
Inductive Response : Type :=
| Json_list (l : list Flight)
| Json_flight (f : Flight)
| Status404.

(** The loop of line 139: every stored flight object is ticked in place,
    in store order, each with its own reading of the clock. *)
Fixpoint tickEach (s : Store) (clock : nat -> Z) : Rand Store :=
  match s with
  | [] => ret []
  | (k, f) :: s' =>
      (f' <- tick f (clock O) ;;
       s'' <- tickEach s' (later clock) ;;
       ret ((k, f') :: s''))%rand
  end.

(** [GET /api/flights]: the response and the store it leaves. *)
Definition listFlights (s : Store) (clock : nat -> Z) : Rand (Response * Store) :=
  (s' <- tickEach s clock ;;
   ret (Json_list (store_values s'), s'))%rand.

(** [GET /api/flights/:id]: the response and the store it leaves. *)
Definition getFlight (s : Store) (k : string) (now : Z) : Rand (Response * Store) :=
  match store_get s k with
  | None => ret (Status404, s)
  | Some f =>
      (f' <- tick f now ;;
       ret (Json_flight f', store_set s k f'))%rand
  end.

(** One flight object followed through any number of ticks. *)
Inductive ticks_to : Flight -> Flight -> Prop :=
| ticks_none (f : Flight) : ticks_to f f
| ticks_more (f g h : Flight) (now : Z) (ds ds' : list R) :
    ticks_to f g -> tick g now ds = Done h ds' -> ticks_to f h.

(** A store as the service keeps it: no key twice, every flight filed
    under its own id and reachable from the generator. *)
Definition store_ok (s : Store) : Prop :=
  NoDup (store_keys s) /\
  Forall (fun kf => id (snd kf) = fst kf /\ reachable (snd kf)) s.

(** The callsign the generator derives from its third draw after the
    pick. *)
Definition callsign_of (n : Z) : string :=
  ("CC" ++ padStart0 4 (String_of_int n))%string.

(** Whether a character is a decimal digit. *)
Definition is_digit (c : ascii) : bool :=
  let n := nat_of_ascii c in (48 <=? n)%nat && (n <=? 57)%nat.

(** Whether a string is [CC] followed by exactly four decimal digits. *)
Definition callsign_shape (s : string) : bool :=
  match s with
  | String c1 (String c2 (String d1 (String d2 (String d3 (String d4 EmptyString))))) =>
      Ascii.eqb c1 "C" && Ascii.eqb c2 "C" &&
      is_digit d1 && is_digit d2 && is_digit d3 && is_digit d4
  | _ => false
  end.

(** The flight [makeFlight] builds from [sample_draws], for any id and
    any clock reading. *)
Definition generated_at (id0 : string) (now : Z) : Flight :=
  let heading0 := bearingDegrees (at_airport JFK) (at_airport LAX) in
  let start := move (mkPoint 40.6413 (-73.7781)) heading0 (0.5 * 50 + 10) in
  mkFlight id0 "CC4999" "JFK" "LAX" (lat start) (lon start)
    heading0 470 34000 now now.

(** The store after [n] rounds of the startup loop that each draw
    [sample_draws]. *)
Fixpoint filed (n : nat) (nanoid : nat -> string) (clock : nat -> Z)
  (s : Store) : Store :=
  match n with
  | O => s
  | S n' =>
      filed n' (later nanoid) (later clock)
        (store_set s (nanoid O) (generated_at (nanoid O) (clock O)))
  end.

(** A startup in which [nanoid] returns one id first and another id in
    each of the nineteen rounds after it, a millisecond apart. *)
Definition sample_ids : nat -> string :=
  fun i => match i with O => "V1StGXR8" | S _ => "Z5a1xk9Q" end%string.

Definition sample_clock : nat -> Z :=
  fun i => (1700000000000 + Z.of_nat i)%Z.

(** A store of two generated flights. *)
Definition sample_store : Store :=
  [("V1StGXR8"%string, generated_at "V1StGXR8" 1700000000000);
   ("Z5a1xk9Q"%string, generated_at "Z5a1xk9Q" 1700000000019)].

(** The loop of line 139 as a relation: the entries are ticked in store
    order, the i-th with the i-th reading of the clock, each on the draws
    the one before it left. *)
Inductive ticked_in_turn :
  Store -> (nat -> Z) -> list R -> Store -> list R -> Prop :=
| turn_done (clock : nat -> Z) (ds : list R) :
    ticked_in_turn [] clock ds [] ds
| turn_next (k : string) (f f' : Flight) (s s' : Store) (clock : nat -> Z)
    (ds ds1 ds' : list R) :
    tick f (clock O) ds = Done f' ds1 ->
    ticked_in_turn s (later clock) ds1 s' ds' ->
    ticked_in_turn ((k, f) :: s) clock ds ((k, f') :: s') ds'.

(** A list request a minute after the startup of [sample_store], and the
    draws it may read. *)
Definition request_clock : nat -> Z :=
  fun i => (1700000060000 + Z.of_nat i)%Z.

Definition request_draws : list R := [0.05; 0.15; 0.5; 0.05; 0.15; 0.5].

(* ================================================================== *)
(** ** Facts about the number helpers *)
(* ================================================================== *)

Lemma Math_floor_eq (z : Z) (x : R) :
  IZR z <= x < IZR z + 1 -> Math_floor x = z.
Proof. apply Zfloor_eq. Qed.

Lemma Ztrunc_nonneg (x : R) : 0 <= x -> Ztrunc x = Zfloor x.
Proof. intros Hx. unfold Ztrunc. destruct (Rle_dec 0 x); [reflexivity | contradiction]. Qed.

Lemma Ztrunc_neg (x : R) : x < 0 -> Ztrunc x = Zceil x.
Proof. intros Hx. unfold Ztrunc. destruct (Rle_dec 0 x); [lra | reflexivity]. Qed.

(** The remainder of a quotient that lies in [[k, k+1)], [k >= 0]. *)
Lemma js_rem_quot (x y : R) (k : Z) :
  0 < y -> (0 <= k)%Z -> IZR k * y <= x < (IZR k + 1) * y ->
  js_rem x y = x - y * IZR k.
Proof.
  intros Hy Hk [Hlo Hhi]. unfold js_rem.
  assert (Hq : IZR k <= x / y < IZR k + 1).
  { split.
    - apply Rmult_le_reg_r with y; [exact Hy |].
      unfold Rdiv. rewrite Rmult_assoc, Rinv_l by lra. lra.
    - apply Rmult_lt_reg_r with y; [exact Hy |].
      unfold Rdiv. rewrite Rmult_assoc, Rinv_l by lra. lra. }
  assert (H0 : 0 <= x / y).
  { apply IZR_le in Hk. lra. }
  rewrite Ztrunc_nonneg by exact H0.
  rewrite (Zfloor_eq k) by exact Hq. reflexivity.
Qed.

Lemma js_rem_small (x y : R) : 0 <= x < y -> js_rem x y = x.
Proof.
  intros [H0 H1]. rewrite (js_rem_quot x y 0); [ring | lra | lia | lra].
Qed.

(** A non-negative dividend leaves a remainder in [[0, y)]. *)
Lemma js_rem_nonneg (x y : R) :
  0 < y -> 0 <= x -> 0 <= js_rem x y < y.
Proof.
  intros Hy Hx. unfold js_rem.
  assert (H0 : 0 <= x / y).
  { unfold Rdiv. apply Rmult_le_pos; [exact Hx |].
    left. apply Rinv_0_lt_compat. exact Hy. }
  rewrite Ztrunc_nonneg by exact H0.
  destruct (Zfloor_bound (x / y)) as [Hlo Hhi].
  assert (Hx' : x = x / y * y) by (field; lra).
  split.
  - assert (y * IZR (Zfloor (x / y)) <= x / y * y).
    { rewrite Rmult_comm. apply Rmult_le_compat_r; lra. }
    lra.
  - assert (x / y * y < (IZR (Zfloor (x / y)) + 1) * y).
    { apply Rmult_lt_compat_r; lra. }
    lra.
Qed.

(** A negative dividend that is not a multiple keeps its sign. *)
Lemma js_rem_neg_small (x y : R) : - y < x < 0 -> js_rem x y = x.
Proof.
  intros [H0 H1]. unfold js_rem.
  assert (Hy : 0 < y) by lra.
  assert (Hq : -1 < x / y < 0).
  { split.
    - apply Rmult_lt_reg_r with y; [exact Hy |].
      unfold Rdiv. rewrite Rmult_assoc, Rinv_l by lra. lra.
    - apply Rmult_lt_reg_r with y; [exact Hy |].
      unfold Rdiv. rewrite Rmult_assoc, Rinv_l by lra. lra. }
  rewrite Ztrunc_neg by lra.
  rewrite (Zceil_eq 0) by (simpl; lra).
  ring.
Qed.

(** The remainder of a negative dividend whose quotient lies in
    [(k-1, k]], [k <= 0]. *)
Lemma js_rem_quot_neg (x y : R) (k : Z) :
  0 < y -> x < 0 -> (IZR k - 1) * y < x <= IZR k * y ->
  js_rem x y = x - y * IZR k.
Proof.
  intros Hy Hx [Hlo Hhi]. unfold js_rem.
  assert (Hq : IZR k - 1 < x / y <= IZR k).
  { split.
    - apply Rmult_lt_reg_r with y; [exact Hy |].
      unfold Rdiv. rewrite Rmult_assoc, Rinv_l by lra. lra.
    - apply Rmult_le_reg_r with y; [exact Hy |].
      unfold Rdiv. rewrite Rmult_assoc, Rinv_l by lra. lra. }
  assert (Hneg : x / y < 0).
  { apply Rmult_lt_reg_r with y; [exact Hy |].
    unfold Rdiv. rewrite Rmult_assoc, Rinv_l by lra. lra. }
  rewrite Ztrunc_neg by exact Hneg.
  rewrite (Zceil_eq k) by exact Hq. reflexivity.
Qed.

(** Adding a wander to a heading can leave a negative sum; [%] then
    returns it unchanged. *)
Lemma js_rem_keeps_negative (h w : R) :
  - 360 < h + w < 0 -> js_rem (h + w) 360 = h + w /\ js_rem (h + w) 360 < 0.
Proof.
  intros H. rewrite js_rem_neg_small by exact H. split; [reflexivity | lra].
Qed.

Lemma Math_atan2_bound (y x : R) : - PI <= Math_atan2 y x <= PI.
Proof.
  pose proof PI_RGT_0 as Hpi.
  pose proof (atan_bound (y / x)) as [Hlo Hhi].
  unfold Math_atan2.
  destruct (Rlt_dec 0 x) as [Hx | Hx]; [lra |].
  destruct (Rlt_dec x 0) as [Hx' | Hx'].
  - assert (Hix : / x < 0) by (apply Rinv_lt_0_compat; exact Hx').
    destruct (Rle_dec 0 y) as [Hy | Hy].
    + assert (Hq : y / x <= 0).
      { unfold Rdiv. replace 0 with (y * 0) by ring.
        apply Rmult_le_compat_l; lra. }
      assert (atan (y / x) <= 0).
      { destruct Hq as [Hq | Hq].
        - left. rewrite <- atan_0. apply atan_increasing. exact Hq.
        - rewrite Hq, atan_0. lra. }
      lra.
    + assert (Hq : 0 < y / x).
      { unfold Rdiv. replace (y * / x) with ((- y) * (- / x)) by ring.
        apply Rmult_lt_0_compat; lra. }
      assert (0 < atan (y / x)).
      { rewrite <- atan_0. apply atan_increasing. exact Hq. }
      lra.
  - destruct (Rlt_dec 0 y); [lra |].
    destruct (Rlt_dec y 0); lra.
Qed.

Lemma Math_atan2_0_pos (x : R) : 0 < x -> Math_atan2 0 x = 0.
Proof.
  intros Hx. unfold Math_atan2.
  destruct (Rlt_dec 0 x); [| contradiction].
  unfold Rdiv. rewrite Rmult_0_l. apply atan_0.
Qed.

(** A negative [y] puts the angle strictly between [-PI] and [0]. *)
Lemma Math_atan2_neg (y x : R) : y < 0 -> - PI < Math_atan2 y x < 0.
Proof.
  intros Hy. pose proof PI_RGT_0 as Hpi.
  pose proof (atan_bound (y / x)) as [Hlo Hhi].
  unfold Math_atan2.
  destruct (Rlt_dec 0 x) as [Hx | Hx].
  - assert (Hq : y / x < 0).
    { unfold Rdiv. replace (y * / x) with (- ((- y) * / x)) by ring.
      assert (0 < (- y) * / x).
      { apply Rmult_lt_0_compat; [lra | apply Rinv_0_lt_compat; exact Hx]. }
      lra. }
    assert (atan (y / x) < 0).
    { rewrite <- atan_0. apply atan_increasing. exact Hq. }
    lra.
  - destruct (Rlt_dec x 0) as [Hx' | Hx'].
    + destruct (Rle_dec 0 y); [lra |].
      assert (Hix : / x < 0) by (apply Rinv_lt_0_compat; exact Hx').
      assert (Hq : 0 < y / x).
      { unfold Rdiv. replace (y * / x) with ((- y) * (- / x)) by ring.
        apply Rmult_lt_0_compat; lra. }
      assert (0 < atan (y / x)).
      { rewrite <- atan_0. apply atan_increasing. exact Hq. }
      lra.
    + destruct (Rlt_dec 0 y); [lra |].
      destruct (Rlt_dec y 0); lra.
Qed.

(* ================================================================== *)
(** ** Facts about the geodesy helpers *)
(* ================================================================== *)

Lemma Point_eta (p : Point) : mkPoint (lat p) (lon p) = p.
Proof. destruct p. reflexivity. Qed.

Lemma deg_of_rad_bound (t a b : R) :
  a * PI < t * 180 < b * PI -> a < t * 180 / PI < b.
Proof.
  intros [Hlo Hhi]. pose proof PI_RGT_0 as Hpi.
  assert (Ht : t * 180 / PI * PI = t * 180) by (field; lra).
  split.
  - apply Rmult_lt_reg_r with PI; [exact Hpi | lra].
  - apply Rmult_lt_reg_r with PI; [exact Hpi | lra].
Qed.

Lemma deg_of_rad_bound_le (t a b : R) :
  a * PI <= t * 180 <= b * PI -> a <= t * 180 / PI <= b.
Proof.
  intros [Hlo Hhi]. pose proof PI_RGT_0 as Hpi.
  assert (Ht : t * 180 / PI * PI = t * 180) by (field; lra).
  split.
  - apply Rmult_le_reg_r with PI; [exact Hpi | lra].
  - apply Rmult_le_reg_r with PI; [exact Hpi | lra].
Qed.

(** Due north: the latitude grows by the angular distance and the
    longitude is only renormalised. *)
Lemma move_north (p : Point) (d : R) :
  - (PI / 2) < lat p * PI / 180 < PI / 2 ->
  - (PI / 2) < lat p * PI / 180 + d / 6371 < PI / 2 ->
  move p 0 d =
  mkPoint (lat p + d / 6371 * 180 / PI) (js_rem (lon p + 540) 360 - 180).
Proof.
  intros H1 H2. pose proof PI_RGT_0 as Hpi.
  unfold move. cbv zeta.
  replace (0 * PI / 180) with 0 by (unfold Rdiv; ring).
  rewrite sin_0, cos_0.
  set (phi1 := lat p * PI / 180) in *.
  set (delta := d / 6371) in *.
  replace (sin phi1 * cos delta + cos phi1 * sin delta * 1)
    with (sin (phi1 + delta)) by (rewrite sin_plus; ring).
  rewrite asin_sin by lra.
  replace (0 * sin delta * cos phi1) with 0 by ring.
  assert (Hx : cos delta - sin phi1 * sin (phi1 + delta)
               = cos phi1 * cos (phi1 + delta)).
  { replace delta with ((phi1 + delta) - phi1) at 1 by ring.
    rewrite cos_minus. ring. }
  rewrite Hx.
  assert (Hpos : 0 < cos phi1 * cos (phi1 + delta)).
  { apply Rmult_lt_0_compat; apply cos_gt_0; lra. }
  rewrite Math_atan2_0_pos by exact Hpos.
  f_equal.
  - unfold phi1. field. lra.
  - f_equal. f_equal. field. lra.
Qed.

(** On one meridian the haversine distance is the arc between the two
    latitudes. *)
Lemma distanceKm_same_lon (a b : Point) :
  lon a = lon b ->
  - PI <= (lat b - lat a) * PI / 180 <= PI ->
  distanceKm a b = 6371 * Rabs ((lat b - lat a) * PI / 180).
Proof.
  intros Hlon Hd. pose proof PI_RGT_0 as Hpi.
  unfold distanceKm. cbv zeta.
  rewrite Hlon.
  replace ((lon b - lon b) * PI / 180 / 2) with 0 by (unfold Rdiv; ring).
  rewrite sin_0.
  set (dphi := (lat b - lat a) * PI / 180) in *.
  replace (sin (dphi / 2) ^ 2 + cos (lat a * PI / 180) * cos (lat b * PI / 180) * 0 ^ 2)
    with (Rsqr (sin (dphi / 2))) by (unfold Rsqr; ring).
  rewrite sqrt_Rsqr_abs.
  destruct (Rle_dec 0 dphi) as [Hpos | Hneg].
  - rewrite (Rabs_right dphi) by lra.
    rewrite Rabs_right by (apply Rle_ge, sin_ge_0; lra).
    rewrite asin_sin by lra. field.
  - rewrite (Rabs_left dphi) by lra.
    assert (Hs : 0 <= sin (- (dphi / 2))) by (apply sin_ge_0; lra).
    rewrite sin_neg in Hs.
    rewrite Rabs_left1 by lra.
    rewrite <- sin_neg.
    rewrite asin_sin by lra. field.
Qed.

(** Toward a point due north the bearing is 0. *)
Lemma bearingDegrees_due_north (p q : Point) :
  lon p = lon q ->
  0 < lat q * PI / 180 - lat p * PI / 180 < PI ->
  bearingDegrees p q = 0.
Proof.
  intros Hlon Hd.
  unfold bearingDegrees. cbv zeta.
  rewrite Hlon.
  replace ((lon q - lon q) * PI / 180) with 0 by (unfold Rdiv; ring).
  rewrite sin_0, cos_0.
  replace (0 * cos (lat q * PI / 180)) with 0 by ring.
  replace (cos (lat p * PI / 180) * sin (lat q * PI / 180)
           - sin (lat p * PI / 180) * cos (lat q * PI / 180) * 1)
    with (sin (lat q * PI / 180 - lat p * PI / 180))
    by (rewrite sin_minus; ring).
  rewrite Math_atan2_0_pos by (apply sin_gt_0; lra).
  replace (0 * 180 / PI + 360) with 360 by (unfold Rdiv; ring).
  rewrite (js_rem_quot 360 360 1); [ring | lra | lia | lra].
Qed.

(** Toward a point whose longitude lies to the west by less than half a
    turn, the bearing is in the western half of the compass. *)
Lemma bearingDegrees_west (p q : Point) :
  - PI < (lon q - lon p) * PI / 180 < 0 ->
  - (PI / 2) < lat q * PI / 180 < PI / 2 ->
  180 < bearingDegrees p q < 360.
Proof.
  intros Hlam Hphi. pose proof PI_RGT_0 as Hpi.
  unfold bearingDegrees. cbv zeta.
  set (y := sin ((lon q - lon p) * PI / 180) * cos (lat q * PI / 180)).
  set (x := cos (lat p * PI / 180) * sin (lat q * PI / 180)
            - sin (lat p * PI / 180) * cos (lat q * PI / 180)
              * cos ((lon q - lon p) * PI / 180)).
  assert (Hy : y < 0).
  { unfold y.
    assert (Hs : sin ((lon q - lon p) * PI / 180) < 0)
      by (apply sin_lt_0_var; lra).
    assert (Hc : 0 < cos (lat q * PI / 180)) by (apply cos_gt_0; lra).
    replace (sin ((lon q - lon p) * PI / 180) * cos (lat q * PI / 180))
      with (- ((- sin ((lon q - lon p) * PI / 180)) * cos (lat q * PI / 180)))
      by ring.
    assert (0 < (- sin ((lon q - lon p) * PI / 180)) * cos (lat q * PI / 180))
      by (apply Rmult_lt_0_compat; lra).
    lra. }
  pose proof (Math_atan2_neg y x Hy) as Ht.
  assert (Hdeg : -180 < Math_atan2 y x * 180 / PI < 0)
    by (apply deg_of_rad_bound; lra).
  rewrite js_rem_small by lra. lra.
Qed.

(** The heading in [bearingDegrees] is always renormalised: the angle of
    [Math.atan2] is at least [-180] degrees, so adding 360 makes the
    dividend of [%] non-negative. *)
Lemma bearingDegrees_range (p q : Point) : 0 <= bearingDegrees p q < 360.
Proof.
  pose proof PI_RGT_0 as Hpi.
  unfold bearingDegrees. cbv zeta.
  match goal with |- context [Math_atan2 ?y ?x] =>
    pose proof (Math_atan2_bound y x) as Ht;
    assert (Hdeg : -180 <= Math_atan2 y x * 180 / PI <= 180)
      by (apply deg_of_rad_bound_le; lra)
  end.
  apply js_rem_nonneg; lra.
Qed.

(** The arc, in radians, from a point that moved north by [d] km to the
    latitude [l1]. *)
Lemma arc_after_north (l0 l1 d : R) :
  (l1 - (l0 + d / 6371 * 180 / PI)) * PI / 180
  = (l1 - l0) * PI / 180 - d / 6371.
Proof. pose proof PI_RGT_0 as Hpi. field. lra. Qed.

(* ================================================================== *)
(** ** Facts about the generator *)
(* ================================================================== *)

Lemma AIRPORTS_length : INR (List.length AIRPORTS) = 10.
Proof. simpl. lra. Qed.

(** The catalog entry a draw selects, from the integer part of ten times
    the draw. *)
Lemma airportAt_floor (r : R) (k : Z) :
  IZR k <= r * 10 < IZR k + 1 -> airportAt r = js_index AIRPORTS k.
Proof.
  intros Hk. unfold airportAt. rewrite AIRPORTS_length.
  rewrite (Math_floor_eq k) by exact Hk. reflexivity.
Qed.

Lemma js_index_In {A} (l : list A) (i : Z) (a : A) :
  js_index l i = Some a -> In a l.
Proof.
  unfold js_index. destruct (i <? 0)%Z; [discriminate |].
  apply nth_error_In.
Qed.

Lemma airportAt_In (r : R) (a : Airport) : airportAt r = Some a -> In a AIRPORTS.
Proof. unfold airportAt. apply js_index_In. Qed.

(** A draw in [[0,1)] always selects an airport. *)
Lemma airportAt_unit (r : R) : unit_draw r -> exists a, airportAt r = Some a.
Proof.
  intros [H0 H1]. unfold airportAt, Math_floor. rewrite AIRPORTS_length.
  destruct (Zfloor_bound (r * 10)) as [Hlo Hhi].
  assert (Hge : (0 <= Zfloor (r * 10))%Z).
  { apply Zfloor_lub. simpl. lra. }
  assert (Hlt : (Zfloor (r * 10) < 10)%Z).
  { apply lt_IZR. lra. }
  unfold js_index.
  destruct (Z.ltb_spec (Zfloor (r * 10)) 0) as [Hn | _]; [lia |].
  destruct (nth_error AIRPORTS (Z.to_nat (Zfloor (r * 10)))) as [a |] eqn:E.
  - exists a. reflexivity.
  - apply nth_error_None in E. simpl in E. lia.
Qed.

(** No two entries of the catalog share a code. *)
Lemma catalog_codes_distinct (i j : Z) (o d : Airport) :
  js_index AIRPORTS i = Some o -> js_index AIRPORTS j = Some d ->
  iata d = iata o -> i = j.
Proof.
  unfold js_index.
  destruct (Z.ltb_spec i 0) as [| Hi]; [discriminate |].
  destruct (Z.ltb_spec j 0) as [| Hj]; [discriminate |].
  intros Ho Hd Heq.
  assert (Hn : Z.to_nat i = Z.to_nat j); [| lia].
  revert Ho Hd. generalize (Z.to_nat i) (Z.to_nat j). clear Hi Hj i j.
  intros n m Ho Hd.
  do 10 (destruct n as [| n];
         [ simpl in Ho; injection Ho as <-;
           do 10 (destruct m as [| m];
                  [ simpl in Hd; injection Hd as <-;
                    first [reflexivity | discriminate Heq] |]);
           destruct m; discriminate Hd |]).
  destruct n; discriminate Ho.
Qed.

(** What the loop guarantees when it ends: two catalog entries with
    different codes, the origin it was given, and a tail of the draws. *)
Lemma resample_inv (oo : option Airport) (ds : list R) :
  forall od o d ds', resample oo od ds = Done (o, d) ds' ->
    oo = Some o /\ iata o <> iata d /\
    (forall d0, od = Some d0 -> In d0 AIRPORTS -> In d AIRPORTS) /\
    exists pre, ds = pre ++ ds'.
Proof.
  induction ds as [| r rest IH]; intros od o d ds' H; simpl in H.
  - destruct od as [d0 |]; [| discriminate].
    destruct oo as [o0 |]; [| discriminate].
    destruct (String.eqb_spec (iata d0) (iata o0)) as [E | E]; [discriminate |].
    injection H as <- <- <-. repeat split.
    + intros Heq. apply E. symmetry. exact Heq.
    + intros d1 Hd1 Hin. injection Hd1 as <-. exact Hin.
    + exists []. reflexivity.
  - destruct od as [d0 |]; [| discriminate].
    destruct oo as [o0 |]; [| discriminate].
    destruct (String.eqb_spec (iata d0) (iata o0)) as [E | E].
    + destruct (IH _ _ _ _ H) as (Ho & Hne & Hin & pre & Hpre).
      repeat split.
      * exact Ho.
      * exact Hne.
      * intros d1 _ _. destruct (airportAt r) as [d2 |] eqn:Er.
        -- apply (Hin d2); [reflexivity | exact (airportAt_In _ _ Er)].
        -- destruct rest; simpl in H; discriminate.
      * exists (r :: pre). simpl. rewrite <- Hpre. reflexivity.
    + injection H as <- <- <-. repeat split.
      * intros Heq. apply E. symmetry. exact Heq.
      * intros d1 Hd1 Hin. injection Hd1 as <-. exact Hin.
      * exists []. reflexivity.
Qed.

(** The loop throws only when one of the two entries is [undefined]. *)
Lemma resample_no_throw (o : Airport) (ds : list R) :
  Forall unit_draw ds ->
  forall d, resample (Some o) (Some d) ds <> TypeError.
Proof.
  induction 1 as [| r rest Hr _ IH]; intros d; simpl.
  - destruct (String.eqb (iata d) (iata o)); discriminate.
  - destruct (String.eqb (iata d) (iata o)); [| discriminate].
    destruct (airportAt_unit r Hr) as [d' ->]. apply IH.
Qed.

(** What a finished pick guarantees. *)
Lemma pickDifferentAirports_inv (ds : list R) (o d : Airport) (ds' : list R) :
  pickDifferentAirports ds = Done (o, d) ds' ->
  iata o <> iata d /\ In o AIRPORTS /\ In d AIRPORTS /\
  exists pre, ds = pre ++ ds'.
Proof.
  unfold pickDifferentAirports, bind, Math_random.
  destruct ds as [| r1 [| r2 rest]]; try discriminate.
  intros H.
  destruct (resample_inv _ _ _ _ _ _ H) as (Ho & Hne & Hin & pre & Hpre).
  repeat split.
  - exact Hne.
  - exact (airportAt_In _ _ Ho).
  - destruct (airportAt r2) as [d0 |] eqn:E2.
    + apply (Hin d0); [reflexivity | exact (airportAt_In _ _ E2)].
    + destruct (airportAt r1); destruct rest; simpl in H; discriminate.
  - exists (r1 :: r2 :: pre). simpl. rewrite <- Hpre. reflexivity.
Qed.

(** With draws in [[0,1)] a pick never throws. *)
Lemma pickDifferentAirports_no_throw (ds : list R) :
  Forall unit_draw ds -> pickDifferentAirports ds <> TypeError.
Proof.
  intros Hds. unfold pickDifferentAirports, bind, Math_random.
  destruct Hds as [| r1 rest1 Hr1 Hrest1]; [discriminate |].
  destruct Hrest1 as [| r2 rest2 Hr2 Hrest2]; [discriminate |].
  destruct (airportAt_unit r1 Hr1) as [o ->].
  destruct (airportAt_unit r2 Hr2) as [d ->].
  apply resample_no_throw. exact Hrest2.
Qed.

(** Two draws that select airports with different codes settle the pick
    without entering the loop. *)
Lemma pickDifferentAirports_two (r1 r2 : R) (rest : list R) (o d : Airport) :
  airportAt r1 = Some o -> airportAt r2 = Some d -> iata d <> iata o ->
  pickDifferentAirports (r1 :: r2 :: rest) = Done (o, d) rest.
Proof.
  intros H1 H2 Hne.
  unfold pickDifferentAirports, bind, Math_random.
  rewrite H1, H2.
  destruct rest as [| r3 rest']; simpl;
    destruct (String.eqb_spec (iata d) (iata o)); try contradiction; reflexivity.
Qed.

(* ================================================================== *)
(** ** Facts about the tick engine *)
(* ================================================================== *)

Lemma dtHours_nonpos (f : Flight) (now : Z) :
  (now <= updatedAt f)%Z ->
  Math_max 0 (IZR (now - updatedAt f)) / 3600000 <= 0.
Proof.
  intros H. unfold Math_max.
  assert (IZR (now - updatedAt f) <= 0) by (apply IZR_le; lia).
  rewrite Rmax_left by lra. lra.
Qed.

Lemma dtHours_pos (f : Flight) (now : Z) :
  (updatedAt f < now)%Z ->
  Math_max 0 (IZR (now - updatedAt f)) / 3600000 = elapsedHours f now /\
  0 < elapsedHours f now.
Proof.
  intros H. unfold Math_max, elapsedHours.
  assert (0 < IZR (now - updatedAt f)) by (apply IZR_lt; lia).
  rewrite Rmax_right by lra. split; [reflexivity | lra].
Qed.

(** Without elapsed time [tick] is the identity and draws nothing. *)
Lemma tick_idle (f : Flight) (now : Z) (ds : list R) :
  (now <= updatedAt f)%Z -> tick f now ds = Done f ds.
Proof.
  intros H. unfold tick.
  destruct (Rle_dec _ 0) as [_ | Hn]; [reflexivity |].
  exfalso. apply Hn. apply dtHours_nonpos. exact H.
Qed.

(** With elapsed time [tick] advances, checks arrival and wanders. *)
Lemma tick_elapsed (f : Flight) (now : Z) (ds : list R) :
  (updatedAt f < now)%Z ->
  tick f now ds =
  bind (if arrived (advance f now (elapsedHours f now))
        then reroute (advance f now (elapsedHours f now))
        else ret (advance f now (elapsedHours f now)))
       wander ds.
Proof.
  intros H. unfold tick.
  destruct (dtHours_pos f now H) as [Heq Hpos].
  rewrite Heq.
  destruct (Rle_dec (elapsedHours f now) 0) as [Hle | _]; [lra | reflexivity].
Qed.

Lemma wander_inv (f f' : Flight) (ds ds' : list R) :
  wander f ds = Done f' ds' ->
  exists r, ds = r :: ds' /\
    f' = mkFlight (id f) (callsign f) (from f) (to f) (f_lat f) (f_lon f)
           (js_rem (heading f + (r * 2 - 1) * 2) 360)
           (speedKts f) (altitudeFt f) (createdAt f) (updatedAt f).
Proof.
  unfold wander, bind, ret, Math_random.
  destruct ds as [| r rest]; [discriminate |].
  intros H. injection H as <- <-. exists r. split; reflexivity.
Qed.

Lemma reroute_inv (f f' : Flight) (ds ds' : list R) :
  reroute f ds = Done f' ds' ->
  exists o d, pickDifferentAirports ds = Done (o, d) ds' /\
    f' = mkFlight (id f) (callsign f) (iata o) (iata d) (f_lat f) (f_lon f)
           (bearingDegrees (at_airport o) (at_airport d))
           (speedKts f) (altitudeFt f) (createdAt f) (updatedAt f).
Proof.
  unfold reroute, bind, ret.
  destruct (pickDifferentAirports ds) as [[o d] ds1 | |]; [| discriminate ..].
  intros H. injection H as <- <-. exists o, d. split; reflexivity.
Qed.

(** The arrival test, spelled out. *)
Lemma arrived_true (f : Flight) :
  arrived f = true <->
  exists dest, findAirport (to f) = Some dest /\
               distanceKm (mkPoint (f_lat f) (f_lon f)) (at_airport dest) < 30.
Proof.
  unfold arrived. split.
  - destruct (findAirport (to f)) as [dest |]; [| discriminate].
    destruct (Rlt_dec _ 30) as [Hlt | _]; [| discriminate].
    intros _. exists dest. split; [reflexivity | exact Hlt].
  - intros (dest & -> & Hlt).
    destruct (Rlt_dec _ 30) as [_ | Hn]; [reflexivity | contradiction].
Qed.

Lemma arrived_absent (f : Flight) : findAirport (to f) = None -> arrived f = false.
Proof. intros H. unfold arrived. rewrite H. reflexivity. Qed.

(** [tick] never touches the identifiers, the speed, the altitude or the
    creation time, and stamps the time it was given when time has passed. *)
Lemma tick_frame (f f' : Flight) (now : Z) (ds ds' : list R) :
  tick f now ds = Done f' ds' ->
  id f' = id f /\ callsign f' = callsign f /\ speedKts f' = speedKts f /\
  altitudeFt f' = altitudeFt f /\ createdAt f' = createdAt f /\
  updatedAt f' = Z.max (updatedAt f) now.
Proof.
  intros H.
  destruct (Z.le_gt_cases now (updatedAt f)) as [Hle | Hgt].
  - rewrite tick_idle in H by exact Hle. injection H as <- _.
    rewrite Z.max_l by lia. repeat split; reflexivity.
  - rewrite tick_elapsed in H by exact Hgt. unfold bind in H.
    rewrite Z.max_r by lia.
    destruct (arrived _).
    + destruct (reroute _ ds) as [f2 ds2 | |] eqn:E; [| discriminate ..].
      apply reroute_inv in E as (o & d & _ & ->).
      apply wander_inv in H as (r & _ & ->). repeat split; reflexivity.
    + unfold ret in H.
      apply wander_inv in H as (r & _ & ->). repeat split; reflexivity.
Qed.

(** What a finished run of the generator built, and from which draws. *)
Lemma makeFlight_inv (id0 : string) (now : Z) (ds ds' : list R) (f : Flight) :
  makeFlight id0 now ds = Done f ds' ->
  exists o d r1 r2 r3 r4,
    pickDifferentAirports ds = Done (o, d) (r1 :: r2 :: r3 :: r4 :: ds') /\
    f = mkFlight id0
          ("CC" ++ padStart0 4 (String_of_int (Math_floor (r3 * 9999))))%string
          (iata o) (iata d)
          (lat (move (mkPoint (a_lat o) (a_lon o))
                  (bearingDegrees (at_airport o) (at_airport d)) (r4 * 50 + 10)))
          (lon (move (mkPoint (a_lat o) (a_lon o))
                  (bearingDegrees (at_airport o) (at_airport d)) (r4 * 50 + 10)))
          (bearingDegrees (at_airport o) (at_airport d))
          (IZR (Math_floor (380 + r1 * 180)))
          (IZR (Math_floor (28000 + r2 * 12000)))
          now now.
Proof.
  unfold makeFlight. unfold bind at 1.
  destruct (pickDifferentAirports ds) as [[o d] ds1 | |]; [| discriminate ..].
  unfold bind, ret, Math_random.
  destruct ds1 as [| r1 [| r2 [| r3 [| r4 rest]]]]; try discriminate.
  intros H. injection H as <- <-.
  exists o, d, r1, r2, r3, r4. split; reflexivity.
Qed.

(** In exact arithmetic a draw in [[0,1)] is scaled into the half-open
    interval [[lo, lo + width)] and floored inside it. *)
Lemma floor_sample_range (lo width : Z) (r : R) :
  (0 < width)%Z -> unit_draw r ->
  IZR lo <= IZR (Math_floor (IZR lo + r * IZR width)) < IZR (lo + width).
Proof.
  intros Hw [H0 H1]. unfold Math_floor.
  assert (Hwr : 0 < IZR width) by (apply IZR_lt; exact Hw).
  destruct (Zfloor_bound (IZR lo + r * IZR width)) as [Hlo Hhi].
  assert (Hrw : 0 <= r * IZR width) by (apply Rmult_le_pos; lra).
  assert (Hrw' : r * IZR width < IZR width).
  { rewrite <- (Rmult_1_l (IZR width)) at 2.
    apply Rmult_lt_compat_r; lra. }
  split.
  - apply IZR_le. apply Zfloor_lub. lra.
  - rewrite plus_IZR. lra.
Qed.

(** The generator's ranges in exact arithmetic. *)
Lemma makeFlight_ranges_exact (id0 : string) (now : Z) (ds ds' : list R) (f : Flight) :
  Forall unit_draw ds ->
  makeFlight id0 now ds = Done f ds' ->
  380 <= speedKts f < 560 /\ 28000 <= altitudeFt f < 40000.
Proof.
  intros Hds H.
  apply makeFlight_inv in H as (o & d & r1 & r2 & r3 & r4 & Hpick & ->).
  apply pickDifferentAirports_inv in Hpick as (_ & _ & _ & pre & ->).
  apply Forall_app in Hds as [_ Hds].
  inversion Hds as [| ? ? Hr1 Hds1]; subst.
  inversion Hds1 as [| ? ? Hr2 _]; subst.
  cbn [speedKts altitudeFt].
  pose proof (floor_sample_range 380 180 r1 ltac:(lia) Hr1) as Hs.
  pose proof (floor_sample_range 28000 12000 r2 ltac:(lia) Hr2) as Ha.
  simpl (380 + 180)%Z in Hs. simpl (28000 + 12000)%Z in Ha.
  split; assumption.
Qed.

(** [tick] throws nothing when the draws are in [[0,1)]. *)
Lemma tick_no_throw (f : Flight) (now : Z) (ds : list R) :
  Forall unit_draw ds -> tick f now ds <> TypeError.
Proof.
  intros Hds.
  destruct (Z.le_gt_cases now (updatedAt f)) as [Hle | Hgt].
  - rewrite tick_idle by exact Hle. discriminate.
  - rewrite tick_elapsed by exact Hgt. unfold bind.
    destruct (arrived _).
    + unfold reroute, bind.
      pose proof (pickDifferentAirports_no_throw ds Hds) as Hp.
      destruct (pickDifferentAirports ds) as [[o d] ds1 | |];
        [| discriminate | contradiction].
      unfold ret, wander, bind, Math_random. destruct ds1; discriminate.
    + unfold ret, wander, bind, Math_random. destruct ds; discriminate.
Qed.

(** [tick] finishes on three draws in [[0,1)] of which the first two
    select different airports. *)
Lemma tick_finishes (f : Flight) (now : Z) (r1 r2 r3 : R) (rest : list R) :
  unit_draw r1 -> unit_draw r2 ->
  Math_floor (r1 * 10) <> Math_floor (r2 * 10) ->
  exists f' ds', tick f now (r1 :: r2 :: r3 :: rest) = Done f' ds'.
Proof.
  intros Hr1 Hr2 Hne.
  destruct (Z.le_gt_cases now (updatedAt f)) as [Hle | Hgt].
  - rewrite tick_idle by exact Hle. eauto.
  - rewrite tick_elapsed by exact Hgt. unfold bind.
    destruct (arrived _).
    + destruct (airportAt_unit r1 Hr1) as [o Ho].
      destruct (airportAt_unit r2 Hr2) as [d Hd].
      assert (Hcodes : iata d <> iata o).
      { intros Heq. apply Hne. revert Ho Hd Heq.
        unfold airportAt. rewrite AIRPORTS_length.
        apply catalog_codes_distinct. }
      unfold reroute, bind.
      rewrite (pickDifferentAirports_two r1 r2 (r3 :: rest) o d Ho Hd Hcodes).
      unfold ret, wander, bind, Math_random. eauto.
    + unfold ret, wander, bind, Math_random. eauto.
Qed.

(* ================================================================== *)
(** ** The example flights, run *)
(* ================================================================== *)

Lemma findAirport_LAX : findAirport "LAX" = Some LAX.
Proof. reflexivity. Qed.

Lemma findAirport_SYD : findAirport "SYD" = Some SYD.
Proof. reflexivity. Qed.

Lemma findAirport_XXX : findAirport "XXX" = None.
Proof. reflexivity. Qed.

Lemma cruising_SYD_advance :
  advance cruising_SYD 60000 (elapsedHours cruising_SYD 60000) =
  mkFlight "Z5a1xk9Q" "CC0815" "LAX" "SYD"
    (-40 + 480 * 1.852 * (60000 / 3600000) / 6371 * 180 / PI) 151.1753
    0 480 35000 0 60000.
Proof.
  pose proof PI2_1 as Hpi. pose proof PI_4 as Hpi4.
  unfold advance, elapsedHours, cruising_SYD.
  cbn [id callsign from to f_lat f_lon heading speedKts altitudeFt createdAt updatedAt].
  change (60000 - 0)%Z with 60000%Z.
  rewrite move_north; cbn [lat lon]; [| lra | lra].
  f_equal.
  rewrite (js_rem_quot _ 360 1); [lra | lra | lia | lra].
Qed.

Lemma cruising_SYD_not_arrived :
  arrived (advance cruising_SYD 60000 (elapsedHours cruising_SYD 60000)) = false.
Proof.
  pose proof PI2_1 as Hpi. pose proof PI_4 as Hpi4.
  rewrite cruising_SYD_advance. unfold arrived. cbn [to f_lat f_lon].
  rewrite findAirport_SYD.
  destruct (Rlt_dec _ 30) as [Hlt | _]; [| reflexivity].
  exfalso. revert Hlt.
  assert (Hd : (lat (at_airport SYD)
                - lat (mkPoint (-40 + 480 * 1.852 * (60000 / 3600000) / 6371 * 180 / PI)
                         151.1753)) * PI / 180
               = (-33.9399 - -40) * PI / 180
                 - 480 * 1.852 * (60000 / 3600000) / 6371).
  { cbn [at_airport SYD a_lat lat]. apply arc_after_north. }
  rewrite distanceKm_same_lon; [| reflexivity | rewrite Hd; lra].
  rewrite Hd. rewrite Rabs_right by lra. lra.
Qed.

Lemma cruising_SYD_tick :
  tick cruising_SYD 60000 [0.125] = Done cruising_SYD_ticked [].
Proof.
  rewrite tick_elapsed by (cbn [cruising_SYD updatedAt]; lia).
  rewrite cruising_SYD_not_arrived, cruising_SYD_advance.
  unfold bind at 1. unfold ret at 1.
  unfold wander, bind, ret, Math_random, cruising_SYD_ticked.
  cbn [id callsign from to f_lat f_lon heading speedKts altitudeFt createdAt updatedAt].
  f_equal. f_equal.
  rewrite js_rem_neg_small by lra. lra.
Qed.

Lemma inbound_LAX_advance :
  advance inbound_LAX 1000 (elapsedHours inbound_LAX 1000) = inbound_LAX_moved.
Proof.
  pose proof PI2_1 as Hpi. pose proof PI_4 as Hpi4.
  unfold advance, elapsedHours, inbound_LAX, inbound_LAX_moved.
  cbn [id callsign from to f_lat f_lon heading speedKts altitudeFt createdAt updatedAt].
  change (1000 - 0)%Z with 1000%Z.
  rewrite move_north; cbn [lat lon]; [| lra | lra].
  f_equal.
  rewrite (js_rem_quot _ 360 1); [lra | lra | lia | lra].
Qed.

(** The arc that is left between [inbound_LAX_moved] and LAX. *)
Lemma inbound_LAX_gap :
  (lat (at_airport LAX) - f_lat inbound_LAX_moved) * PI / 180
  = (33.9416 - 33.9) * PI / 180 - 480 * 1.852 * (1000 / 3600000) / 6371.
Proof.
  cbn [at_airport LAX a_lat lat inbound_LAX_moved f_lat]. apply arc_after_north.
Qed.

Lemma inbound_LAX_arrived : arrived inbound_LAX_moved = true.
Proof.
  pose proof PI2_1 as Hpi. pose proof PI_4 as Hpi4.
  pose proof inbound_LAX_gap as Hd.
  apply arrived_true. exists LAX. split; [reflexivity |].
  cbn [inbound_LAX_moved f_lat f_lon] in *.
  rewrite distanceKm_same_lon; cbn [lat lon];
    [| reflexivity | rewrite Hd; lra].
  rewrite Hd. rewrite Rabs_right by lra. lra.
Qed.

Lemma airportAt_JFK : airportAt 0.05 = Some JFK.
Proof. rewrite (airportAt_floor _ 0) by (simpl; lra). reflexivity. Qed.

Lemma airportAt_LAX : airportAt 0.15 = Some LAX.
Proof. rewrite (airportAt_floor _ 1) by (simpl; lra). reflexivity. Qed.

Lemma pick_JFK_LAX (rest : list R) :
  pickDifferentAirports (0.05 :: 0.15 :: rest) = Done (JFK, LAX) rest.
Proof.
  apply pickDifferentAirports_two.
  - exact airportAt_JFK.
  - exact airportAt_LAX.
  - discriminate.
Qed.

(** From JFK, LAX lies in the western half of the compass. *)
Lemma bearing_JFK_LAX :
  180 < bearingDegrees (at_airport JFK) (at_airport LAX) < 360.
Proof.
  pose proof PI2_1 as Hpi.
  apply bearingDegrees_west; cbn [at_airport JFK LAX a_lat a_lon lat lon]; lra.
Qed.

Lemma inbound_LAX_tick :
  tick inbound_LAX 1000 [0.05; 0.15; 0.5] = Done inbound_LAX_rerouted [].
Proof.
  pose proof bearing_JFK_LAX as Hb.
  rewrite tick_elapsed by (cbn [inbound_LAX updatedAt]; lia).
  rewrite inbound_LAX_advance, inbound_LAX_arrived.
  unfold bind at 1. unfold reroute. unfold bind at 1. rewrite pick_JFK_LAX.
  unfold wander, bind, ret, Math_random, inbound_LAX_rerouted, inbound_LAX_moved.
  cbn [id callsign from to f_lat f_lon heading speedKts altitudeFt createdAt updatedAt].
  change (iata JFK) with "JFK"%string. change (iata LAX) with "LAX"%string.
  f_equal. f_equal.
  replace ((0.5 * 2 - 1) * 2) with 0 by lra.
  rewrite Rplus_0_r. apply js_rem_small. lra.
Qed.

(** After the re-route the aircraft is still south of LAX: the way to its
    new destination is due north. *)
Lemma inbound_LAX_bearing_to_destination :
  bearingDegrees (position inbound_LAX_rerouted) (at_airport LAX) = 0.
Proof.
  pose proof PI2_1 as Hpi. pose proof PI_4 as Hpi4.
  pose proof inbound_LAX_gap as Hd.
  cbn [inbound_LAX_moved f_lat] in Hd.
  apply bearingDegrees_due_north.
  - reflexivity.
  - unfold position. cbn [inbound_LAX_rerouted f_lat f_lon lat lon].
    match goal with |- _ < ?a - ?b < _ =>
      replace (a - b) with
        ((33.9416 - 33.9) * PI / 180 - 480 * 1.852 * (1000 / 3600000) / 6371)
        by (rewrite <- Hd; unfold Rdiv; ring)
    end.
    lra.
Qed.

Lemma makeFlight_sample :
  makeFlight "V1StGXR8" 1700000000000 sample_draws = Done generated [].
Proof.
  unfold makeFlight, sample_draws. unfold bind at 1. rewrite pick_JFK_LAX.
  unfold bind, ret, Math_random.
  rewrite (Math_floor_eq 470 (380 + 0.5 * 180)) by lra.
  rewrite (Math_floor_eq 34000 (28000 + 0.5 * 12000)) by lra.
  rewrite (Math_floor_eq 4999 (0.5 * 9999)) by lra.
  reflexivity.
Qed.

(** The projection of the tick leaves [inbound_LAX] within 30 km of LAX. *)
Lemma inbound_LAX_near :
  distanceKm
    (move (position inbound_LAX) (heading inbound_LAX)
       (speedKts inbound_LAX * 1.852 * elapsedHours inbound_LAX 1000))
    (at_airport LAX) < 30.
Proof.
  pose proof inbound_LAX_arrived as Harr.
  rewrite <- inbound_LAX_advance in Harr.
  apply arrived_true in Harr as (dest & Hfind & Hd).
  change (to (advance inbound_LAX 1000 (elapsedHours inbound_LAX 1000)))
    with "LAX"%string in Hfind.
  rewrite findAirport_LAX in Hfind. injection Hfind as <-.
  unfold advance in Hd. cbn [f_lat f_lon] in Hd.
  rewrite Point_eta in Hd. exact Hd.
Qed.

(** West of -360 degrees the dividend of [%] in [move] is negative and the
    longitude comes out below -180. *)
Lemma move_lon_far_west : lon (move (mkPoint 0 (-1000)) 0 0) = -280.
Proof.
  pose proof PI_RGT_0 as Hpi.
  rewrite move_north; cbn [lat lon]; [| lra | lra].
  rewrite (js_rem_quot_neg _ 360 (-1)); lra.
Qed.

(** A draw in the middle of the interval, in binary64. *)
Lemma binary64_sampling_midrange :
  Binary64.speed_sample Binary64.mid_draw = Some 470%Z /\
  Binary64.altitude_sample Binary64.mid_draw = Some 34000%Z.
Proof. split; vm_compute; reflexivity. Qed.

(* ================================================================== *)
(** ** The properties of the specification *)
(* ================================================================== *)

(** C1, at the failing input.  Ticking [cruising_SYD] one minute after its
    last update, with [Math.random()] returning 0.125, leaves the heading
    at -1.5 degrees: the wander of line 130 is -1.5 and [%] keeps the sign
    of a negative dividend, so the heading is not in [[0,360)]. *)
Theorem tick_heading_negative :
  exists f',
    tick cruising_SYD 60000 [0.125] = Done f' [] /\
    heading f' = -1.5 /\
    ~ (0 <= heading f' < 360).
Proof.
  exists cruising_SYD_ticked. split; [exact cruising_SYD_tick |].
  cbn [cruising_SYD_ticked heading]. split; [reflexivity | lra].
Qed.

(** C2, as stated, fails: moving the point (0, -180) by 0 km along bearing
    0 gives longitude -180, which is outside (-180, 180]. *)
Lemma move_lon_reaches_minus_180 :
  ~ (-180 < lon (move (mkPoint 0 (-180)) 0 0) <= 180).
Proof.
  pose proof PI_RGT_0 as Hpi.
  rewrite move_north; cbn [lat lon]; [| lra | lra].
  rewrite (js_rem_quot _ 360 1); [lra | lra | lia | lra].
Qed.

(** C2, amended.  For every point whose longitude is a valid one (between
    -180 and 180), every bearing and every distance, the longitude that
    [move] returns is at least -180 and strictly below 180. *)
Theorem move_lon_range (p : Point) (bearingDeg distKm : R) :
  valid_lon (lon p) ->
  -180 <= lon (move p bearingDeg distKm) < 180.
Proof.
  intros [Hlo Hhi]. pose proof PI_RGT_0 as Hpi.
  unfold move. cbv zeta. cbn [lon].
  match goal with |- context [Math_atan2 ?y ?x] =>
    pose proof (Math_atan2_bound y x) as Ht;
    set (t := Math_atan2 y x) in *
  end.
  assert (Hdeg : -180 <= t * 180 / PI <= 180)
    by (apply deg_of_rad_bound_le; lra).
  replace ((lon p * PI / 180 + t) * 180 / PI)
    with (lon p + t * 180 / PI) by (field; lra).
  assert (Hrem : 0 <= js_rem (lon p + t * 180 / PI + 540) 360 < 360)
    by (apply js_rem_nonneg; lra).
  lra.
Qed.

Lemma move_lon_range_witness :
  valid_lon (lon (mkPoint 40.6413 (-73.7781))) /\
  -180 <= lon (move (mkPoint 40.6413 (-73.7781)) 270 889) < 180.
Proof.
  assert (H : valid_lon (lon (mkPoint 40.6413 (-73.7781))))
    by (unfold valid_lon; cbn [lon]; lra).
  split; [exact H | exact (move_lon_range _ 270 889 H)].
Defined.

(** C3.  When the current time is not later than the flight's
    [updatedAt], [tick] returns the flight itself, every field as it was,
    and consumes no random draw. *)
Theorem tick_unchanged_without_elapsed (f : Flight) (now : Z) (ds : list R) :
  (now <= updatedAt f)%Z -> tick f now ds = Done f ds.
Proof.
  intros Hnow. unfold tick, Math_max.
  assert (Hdiff : IZR (now - updatedAt f) <= 0) by (apply IZR_le; lia).
  rewrite Rmax_left by exact Hdiff.
  destruct (Rle_dec (0 / 3600000) 0) as [_ | Hpos].
  - reflexivity.
  - exfalso. apply Hpos. lra.
Qed.

Lemma tick_unchanged_without_elapsed_witness :
  (0 <= updatedAt inbound_LAX)%Z /\
  tick inbound_LAX 0 [0.25] = Done inbound_LAX [0.25].
Proof.
  assert (H : (0 <= updatedAt inbound_LAX)%Z)
    by (cbn [inbound_LAX updatedAt]; lia).
  split; [exact H | exact (tick_unchanged_without_elapsed inbound_LAX 0 [0.25] H)].
Defined.

(** C4.  Every flight reachable from the generator by any sequence of
    ticks has an origin code different from its destination code. *)
Theorem origin_differs_from_destination (f : Flight) :
  reachable f -> from f <> to f.
Proof.
  induction 1 as [id0 now ds ds' f Hmake | f f' now ds ds' Hreach IH Htick].
  - apply makeFlight_inv in Hmake as (o & d & r1 & r2 & r3 & r4 & Hpick & ->).
    apply pickDifferentAirports_inv in Hpick as (Hne & _).
    exact Hne.
  - destruct (Z.le_gt_cases now (updatedAt f)) as [Hle | Hgt].
    + rewrite tick_idle in Htick by exact Hle.
      injection Htick as <- _. exact IH.
    + rewrite tick_elapsed in Htick by exact Hgt. unfold bind in Htick.
      destruct (arrived _).
      * destruct (reroute _ ds) as [f2 ds2 | |] eqn:E; [| discriminate ..].
        apply reroute_inv in E as (o & d & Hpick & ->).
        apply pickDifferentAirports_inv in Hpick as (Hne & _).
        apply wander_inv in Htick as (r & _ & ->).
        exact Hne.
      * unfold ret in Htick.
        apply wander_inv in Htick as (r & _ & ->).
        exact IH.
Qed.

Lemma origin_differs_from_destination_witness :
  reachable generated /\ from generated <> to generated.
Proof.
  assert (H : reachable generated)
    by exact (reach_make _ _ _ _ _ makeFlight_sample).
  split; [exact H | exact (origin_differs_from_destination generated H)].
Defined.

(** C5.  When, after the projection of a tick, the flight is within 30 km
    of its destination airport, the tick ends with the origin and the
    destination replaced by the codes of two catalog airports, while the
    position is the one the projection of that tick computed, [updatedAt]
    is the clock reading that projection stamped, and speed, altitude,
    id, callsign and [createdAt] are those of the flight before the
    tick: of the eleven fields the re-route writes the two codes and the
    heading and no other. *)
Theorem reroute_frame (f f' : Flight) (now : Z) (ds ds' : list R) (dest : Airport) :
  (updatedAt f < now)%Z ->
  findAirport (to f) = Some dest ->
  distanceKm
    (move (position f) (heading f) (speedKts f * 1.852 * elapsedHours f now))
    (at_airport dest) < 30 ->
  tick f now ds = Done f' ds' ->
  (exists o d, In o AIRPORTS /\ In d AIRPORTS /\
               from f' = iata o /\ to f' = iata d) /\
  position f' =
    move (position f) (heading f) (speedKts f * 1.852 * elapsedHours f now) /\
  speedKts f' = speedKts f /\ altitudeFt f' = altitudeFt f /\
  id f' = id f /\ callsign f' = callsign f /\ createdAt f' = createdAt f /\
  updatedAt f' = now.
Proof.
  intros Hgt Hfind Hnear Htick.
  rewrite tick_elapsed in Htick by exact Hgt. unfold bind in Htick.
  assert (Harr : arrived (advance f now (elapsedHours f now)) = true).
  { apply arrived_true. exists dest. split; [exact Hfind |].
    unfold advance. cbn [f_lat f_lon]. rewrite Point_eta. exact Hnear. }
  rewrite Harr in Htick.
  destruct (reroute _ ds) as [f2 ds2 | |] eqn:E; [| discriminate ..].
  apply reroute_inv in E as (o & d & Hpick & ->).
  apply pickDifferentAirports_inv in Hpick as (_ & Ho & Hd & _).
  apply wander_inv in Htick as (r & _ & ->).
  unfold advance, position.
  cbn [id callsign from to f_lat f_lon heading speedKts altitudeFt createdAt updatedAt].
  split; [exists o, d; repeat split; assumption |].
  split; [apply Point_eta |].
  repeat split; reflexivity.
Qed.

Lemma reroute_frame_witness :
  (updatedAt inbound_LAX < 1000)%Z /\
  findAirport (to inbound_LAX) = Some LAX /\
  distanceKm
    (move (position inbound_LAX) (heading inbound_LAX)
       (speedKts inbound_LAX * 1.852 * elapsedHours inbound_LAX 1000))
    (at_airport LAX) < 30 /\
  tick inbound_LAX 1000 [0.05; 0.15; 0.5] = Done inbound_LAX_rerouted [] /\
  position inbound_LAX_rerouted =
    move (position inbound_LAX) (heading inbound_LAX)
      (speedKts inbound_LAX * 1.852 * elapsedHours inbound_LAX 1000) /\
  speedKts inbound_LAX_rerouted = speedKts inbound_LAX /\
  altitudeFt inbound_LAX_rerouted = altitudeFt inbound_LAX /\
  id inbound_LAX_rerouted = id inbound_LAX /\
  callsign inbound_LAX_rerouted = callsign inbound_LAX /\
  createdAt inbound_LAX_rerouted = createdAt inbound_LAX /\
  updatedAt inbound_LAX_rerouted = 1000%Z.
Proof.
  assert (H1 : (updatedAt inbound_LAX < 1000)%Z)
    by (cbn [inbound_LAX updatedAt]; lia).
  pose proof findAirport_LAX as H2.
  pose proof inbound_LAX_near as H3.
  pose proof inbound_LAX_tick as H4.
  pose proof (reroute_frame inbound_LAX inbound_LAX_rerouted 1000
                [0.05; 0.15; 0.5] [] LAX H1 H2 H3 H4) as [_ H5].
  repeat split; first [assumption | apply H5].
Defined.

(** C6.  The haversine distance does not depend on the order of its two
    points, and the distance from a point to itself is 0. *)
Theorem distanceKm_symmetric_zero :
  (forall a b : Point, distanceKm a b = distanceKm b a) /\
  (forall a : Point, distanceKm a a = 0).
Proof.
  split.
  - intros a b. unfold distanceKm. cbv zeta.
    assert (Hphi : sin ((lat b - lat a) * PI / 180 / 2) ^ 2
                   = sin ((lat a - lat b) * PI / 180 / 2) ^ 2).
    { replace ((lat b - lat a) * PI / 180 / 2)
        with (- ((lat a - lat b) * PI / 180 / 2)) by (unfold Rdiv; ring).
      rewrite sin_neg. ring. }
    assert (Hlam : sin ((lon b - lon a) * PI / 180 / 2) ^ 2
                   = sin ((lon a - lon b) * PI / 180 / 2) ^ 2).
    { replace ((lon b - lon a) * PI / 180 / 2)
        with (- ((lon a - lon b) * PI / 180 / 2)) by (unfold Rdiv; ring).
      rewrite sin_neg. ring. }
    rewrite Hphi, Hlam.
    rewrite (Rmult_comm (cos (lat a * PI / 180)) (cos (lat b * PI / 180))).
    reflexivity.
  - intros a. unfold distanceKm. cbv zeta.
    replace ((lat a - lat a) * PI / 180 / 2) with 0 by (unfold Rdiv; ring).
    replace ((lon a - lon a) * PI / 180 / 2) with 0 by (unfold Rdiv; ring).
    rewrite sin_0.
    replace (0 ^ 2 + cos (lat a * PI / 180) * cos (lat a * PI / 180) * 0 ^ 2)
      with 0 by ring.
    rewrite sqrt_0, asin_0. ring.
Qed.

(** C7.  For a flight whose destination code is not in the catalog, a
    tick makes no arrival check and ends normally on a single draw: with
    elapsed time it moves the position, stamps [updatedAt], wanders the
    heading and keeps both codes; without elapsed time it returns the
    flight as it is.  And on draws in [[0,1)] no tick, of any flight, ends
    in an error. *)
Theorem tick_absent_destination (f : Flight) (now : Z) (r : R) (rest : list R) :
  findAirport (to f) = None ->
  tick f now (r :: rest) =
    (if (updatedAt f <? now)%Z
     then
       let p := move (position f) (heading f)
                  (speedKts f * 1.852 * elapsedHours f now) in
       Done (mkFlight (id f) (callsign f) (from f) (to f) (lat p) (lon p)
               (js_rem (heading f + (r * 2 - 1) * 2) 360)
               (speedKts f) (altitudeFt f) (createdAt f) now) rest
     else Done f (r :: rest)) /\
  (forall g t ds, Forall unit_draw ds -> tick g t ds <> TypeError).
Proof.
  intros Habsent. split; [| intros g t ds; apply tick_no_throw].
  destruct (Z.ltb_spec (updatedAt f) now) as [Hgt | Hle].
  - rewrite tick_elapsed by exact Hgt.
    rewrite arrived_absent by (unfold advance; cbn [to]; exact Habsent).
    reflexivity.
  - apply tick_idle. exact Hle.
Qed.

Lemma tick_absent_destination_witness :
  findAirport (to stray) = None /\
  tick stray 3600000 [0.75] =
    Done (mkFlight "p0Qw3e7R" "CC0007" "JFK" "XXX"
            (lat (move (mkPoint 10 20) 90 (480 * 1.852 * (3600000 / 3600000))))
            (lon (move (mkPoint 10 20) 90 (480 * 1.852 * (3600000 / 3600000))))
            (js_rem (90 + (0.75 * 2 - 1) * 2) 360) 480 35000 0 3600000) [].
Proof.
  pose proof findAirport_XXX as H.
  split; [exact H |].
  exact (proj1 (tick_absent_destination stray 3600000 0.75 [] H)).
Defined.

(** C8.  Whatever the current time, also one earlier than the flight's
    [updatedAt], the [updatedAt] of the flight a tick returns is at least
    the [updatedAt] it had before. *)
Theorem updatedAt_monotone (f f' : Flight) (now : Z) (ds ds' : list R) :
  tick f now ds = Done f' ds' -> (updatedAt f <= updatedAt f')%Z.
Proof.
  intros H. apply tick_frame in H as (_ & _ & _ & _ & _ & Hu). lia.
Qed.

Lemma updatedAt_monotone_witness :
  tick cruising_SYD 60000 [0.125] = Done cruising_SYD_ticked [] /\
  (updatedAt cruising_SYD <= updatedAt cruising_SYD_ticked)%Z.
Proof.
  pose proof cruising_SYD_tick as H.
  split; [exact H | exact (updatedAt_monotone _ _ _ _ _ H)].
Defined.

(** C9, at the failing input.  In binary64 the draw 1 - 2^-52, which is
    in [[0,1)], makes [380 + r*180] round to 560 and [28000 + r*12000]
    round to 40000, so the generator's speed is 560 and its altitude
    40000: the upper ends that the claim excludes.  The draw 1 - 2^-53
    does the same. *)
Theorem binary64_sampling_reaches_upper_end :
  (Binary64.unit_draw_b64 Binary64.last_draw = true /\
   Binary64.speed_sample Binary64.last_draw = Some 560%Z /\
   Binary64.altitude_sample Binary64.last_draw = Some 40000%Z) /\
  (Binary64.unit_draw_b64 Binary64.last_draw53 = true /\
   Binary64.speed_sample Binary64.last_draw53 = Some 560%Z /\
   Binary64.altitude_sample Binary64.last_draw53 = Some 40000%Z).
Proof.
  split.
  - split; [| split]; vm_compute; reflexivity.
  - split; [| split]; vm_compute; reflexivity.
Qed.

(** C10.  When the arrival test of a tick holds, the heading the tick
    leaves is the wander applied to the bearing from the newly picked
    origin airport to the newly picked destination airport; the position
    of the aircraft plays no part.  And there is a flight, [inbound_LAX],
    whose re-route leaves, with a zero wander, exactly that airport to
    airport bearing as heading although the bearing from the aircraft to
    its new destination is another one. *)
Theorem reroute_heading_between_airports :
  (forall (f f' : Flight) (now : Z) (ds ds' : list R),
      (updatedAt f < now)%Z ->
      arrived (advance f now (elapsedHours f now)) = true ->
      tick f now ds = Done f' ds' ->
      exists o d r,
        pickDifferentAirports ds = Done (o, d) (r :: ds') /\
        from f' = iata o /\ to f' = iata d /\
        heading f' =
          js_rem (bearingDegrees (at_airport o) (at_airport d) + (r * 2 - 1) * 2) 360) /\
  (exists (f f' : Flight) (now : Z) (ds ds' : list R) (o d : Airport),
      (updatedAt f < now)%Z /\
      arrived (advance f now (elapsedHours f now)) = true /\
      tick f now ds = Done f' ds' /\
      from f' = iata o /\ to f' = iata d /\ findAirport (to f') = Some d /\
      heading f' = bearingDegrees (at_airport o) (at_airport d) /\
      heading f' <> bearingDegrees (position f') (at_airport d)).
Proof.
  split.
  - intros f f' now ds ds' Hgt Harr Htick.
    rewrite tick_elapsed in Htick by exact Hgt. unfold bind in Htick.
    rewrite Harr in Htick.
    destruct (reroute _ ds) as [f2 ds2 | |] eqn:E; [| discriminate ..].
    apply reroute_inv in E as (o & d & Hpick & ->).
    apply wander_inv in Htick as (r & -> & ->).
    exists o, d, r. repeat split. exact Hpick.
  - exists inbound_LAX, inbound_LAX_rerouted, 1000%Z, [0.05; 0.15; 0.5], [], JFK, LAX.
    split; [cbn [inbound_LAX updatedAt]; lia |].
    split; [rewrite inbound_LAX_advance; exact inbound_LAX_arrived |].
    split; [exact inbound_LAX_tick |].
    split; [reflexivity |]. split; [reflexivity |].
    split; [reflexivity |]. split; [reflexivity |].
    rewrite inbound_LAX_bearing_to_destination.
    pose proof bearing_JFK_LAX as Hb.
    cbn [inbound_LAX_rerouted heading]. lra.
Qed.

Lemma reroute_heading_between_airports_witness :
  (updatedAt inbound_LAX < 1000)%Z /\
  arrived (advance inbound_LAX 1000 (elapsedHours inbound_LAX 1000)) = true /\
  tick inbound_LAX 1000 [0.05; 0.15; 0.5] = Done inbound_LAX_rerouted [] /\
  exists o d r,
    pickDifferentAirports [0.05; 0.15; 0.5] = Done (o, d) [r] /\
    from inbound_LAX_rerouted = iata o /\ to inbound_LAX_rerouted = iata d /\
    heading inbound_LAX_rerouted =
      js_rem (bearingDegrees (at_airport o) (at_airport d) + (r * 2 - 1) * 2) 360.
Proof.
  assert (H1 : (updatedAt inbound_LAX < 1000)%Z)
    by (cbn [inbound_LAX updatedAt]; lia).
  assert (H2 : arrived (advance inbound_LAX 1000 (elapsedHours inbound_LAX 1000)) = true)
    by (rewrite inbound_LAX_advance; exact inbound_LAX_arrived).
  pose proof inbound_LAX_tick as H3.
  repeat split; try assumption.
  exact (proj1 reroute_heading_between_airports inbound_LAX inbound_LAX_rerouted
           1000%Z [0.05; 0.15; 0.5] [] H1 H2 H3).
Defined.

(* ================================================================== *)
(** ** More about the geodesy helpers *)
(* ================================================================== *)

Lemma Math_atan2_0_nonneg (x : R) : 0 <= x -> Math_atan2 0 x = 0.
Proof.
  intros [Hx | Hx].
  - apply Math_atan2_0_pos. exact Hx.
  - subst x. unfold Math_atan2.
    destruct (Rlt_dec 0 0) as [H | _]; [lra |].
    destruct (Rlt_dec 0 0) as [H | _]; [lra |]. reflexivity.
Qed.




(** The same bounds as the range of [move]'s longitude, from first
    principles, for the invariants of the engine. *)
Lemma move_lon_window (p : Point) (b d : R) :
  -180 <= lon p <= 180 -> -180 <= lon (move p b d) < 180.
Proof.
  intros [Hlo Hhi]. pose proof PI_RGT_0 as Hpi.
  unfold move. cbv zeta. cbn [lon].
  match goal with |- context [Math_atan2 ?y ?x] =>
    pose proof (Math_atan2_bound y x) as Ht;
    set (t := Math_atan2 y x) in *
  end.
  assert (Hdeg : -180 <= t * 180 / PI <= 180)
    by (apply deg_of_rad_bound_le; lra).
  replace ((lon p * PI / 180 + t) * 180 / PI)
    with (lon p + t * 180 / PI) by (field; lra).
  assert (Hrem : 0 <= js_rem (lon p + t * 180 / PI + 540) 360 < 360)
    by (apply js_rem_nonneg; lra).
  lra.
Qed.

Lemma move_lat_window (p : Point) (b d : R) : -90 <= lat (move p b d) <= 90.
Proof.
  pose proof PI_RGT_0 as Hpi.
  unfold move. cbv zeta. cbn [lat].
  match goal with |- context [asin ?x] =>
    pose proof (asin_bound x) as Ha; set (a := asin x) in *
  end.
  apply deg_of_rad_bound_le. lra.
Qed.

(** X1.  Whatever the two points, the bearing is at least 0 and below
    360; from a point to itself it is 0. *)
Theorem bearingDegrees_normalized (p q : Point) :
  0 <= bearingDegrees p q < 360 /\ bearingDegrees p p = 0.
Proof.
  pose proof PI_RGT_0 as Hpi. split.
  - unfold bearingDegrees. cbv zeta.
    match goal with |- context [Math_atan2 ?y ?x] =>
      pose proof (Math_atan2_bound y x) as Ht; set (t := Math_atan2 y x) in *
    end.
    assert (Hdeg : -180 <= t * 180 / PI <= 180)
      by (apply deg_of_rad_bound_le; lra).
    apply js_rem_nonneg; lra.
  - unfold bearingDegrees. cbv zeta.
    replace ((lon p - lon p) * PI / 180) with 0 by (unfold Rdiv; ring).
    rewrite sin_0, cos_0.
    replace (0 * cos (lat p * PI / 180)) with 0 by ring.
    replace (cos (lat p * PI / 180) * sin (lat p * PI / 180)
             - sin (lat p * PI / 180) * cos (lat p * PI / 180) * 1)
      with 0 by ring.
    rewrite Math_atan2_0_nonneg by lra.
    replace (0 * 180 / PI + 360) with 360 by (unfold Rdiv; ring).
    rewrite (js_rem_quot 360 360 1); [lra | lra | lia | lra].
Qed.

(** X5.  A point given on the antimeridian, as longitude 180 or as
    longitude -180, comes back from [move] over 0 km with longitude -180,
    whatever its latitude and the bearing. *)
Theorem move_antimeridian (p : Point) (bearingDeg : R) :
  lon p = 180 \/ lon p = -180 ->
  lon (move p bearingDeg 0) = -180.
Proof.
  intros Hlon. pose proof PI_RGT_0 as Hpi.
  unfold move. cbv zeta. cbn [lon].
  replace (0 / 6371) with 0 by (unfold Rdiv; ring).
  rewrite sin_0, cos_0.
  set (phi1 := lat p * PI / 180).
  replace (sin (bearingDeg * PI / 180) * 0 * cos phi1) with 0 by ring.
  assert (Hx : 1 - sin phi1
                   * (sin phi1 * 1 + cos phi1 * 0 * cos (bearingDeg * PI / 180))
               = cos phi1 * cos phi1).
  { pose proof (sin2_cos2 phi1) as H. unfold Rsqr in H. lra. }
  rewrite Hx.
  rewrite Math_atan2_0_nonneg by (apply Rle_0_sqr).
  replace ((lon p * PI / 180 + 0) * 180 / PI) with (lon p) by (field; lra).
  destruct Hlon as [-> | ->].
  - rewrite (js_rem_quot (180 + 540) 360 2); [lra | lra | lia | lra].
  - rewrite (js_rem_quot (-180 + 540) 360 1); [lra | lra | lia | lra].
Qed.

Lemma move_antimeridian_witness :
  (lon (mkPoint 40.6413 180) = 180 \/ lon (mkPoint 40.6413 180) = -180) /\
  lon (move (mkPoint 40.6413 180) 45 0) = -180.
Proof.
  assert (H : lon (mkPoint 40.6413 180) = 180 \/ lon (mkPoint 40.6413 180) = -180)
    by (left; reflexivity).
  split; [exact H | exact (move_antimeridian (mkPoint 40.6413 180) 45 H)].
Defined.



(* ================================================================== *)
(** ** More about the generator *)
(* ================================================================== *)

(** Two draws that select entries with one code select one entry. *)
Lemma airportAt_same_code (r r' : R) (a a' : Airport) :
  airportAt r = Some a -> airportAt r' = Some a' -> iata a' = iata a ->
  airportAt r' = airportAt r.
Proof.
  intros Ha Ha' Hcode. unfold airportAt in *.
  rewrite (catalog_codes_distinct _ _ _ _ Ha Ha' Hcode). reflexivity.
Qed.

(** While the draws repeat the origin the loop goes on. *)
Lemma resample_skips (o : Airport) (rs : list R) (od : option Airport)
  (rest : list R) :
  Forall (fun x => airportAt x = Some o) rs ->
  resample (Some o) (Some o) (rs ++ rest) =
  match rest with
  | [] => MoreDraws
  | r :: rest' => resample (Some o) (airportAt r) rest'
  end.
Proof.
  induction 1 as [| x rs Hx _ IH]; simpl.
  - destruct rest; simpl; rewrite String.eqb_refl; reflexivity.
  - rewrite String.eqb_refl, Hx. exact IH.
Qed.

(** What keeps the loop waiting: a destination with the origin's code and
    only draws that select that code again. *)
Lemma resample_waiting (o : Airport) (ds : list R) :
  forall d, resample (Some o) (Some d) ds = MoreDraws ->
    iata d = iata o /\
    Forall (fun r => exists a, airportAt r = Some a /\ iata a = iata o) ds.
Proof.
  induction ds as [| r rest IH]; intros d H; simpl in H.
  - destruct (String.eqb_spec (iata d) (iata o)) as [E | E]; [| discriminate].
    split; [exact E | constructor].
  - destruct (String.eqb_spec (iata d) (iata o)) as [E | E]; [| discriminate].
    destruct (airportAt r) as [d' |] eqn:Er.
    + destruct (IH d' H) as [E' Hrest].
      split; [exact E |]. constructor; [| exact Hrest].
      exists d'. split; [exact Er | exact E'].
    + destruct rest; simpl in H; discriminate.
Qed.



(** X11.  On draws in [[0,1)], the pick is still waiting for a draw when
    the supply ends exactly when every draw after the first selected the
    same airport as the first. *)
Theorem pick_waits_iff_draws_repeat (r1 : R) (rest : list R) :
  Forall unit_draw (r1 :: rest) ->
  (pickDifferentAirports (r1 :: rest) = MoreDraws <->
   Forall (fun r => airportAt r = airportAt r1) rest).
Proof.
  intros Hunit. inversion Hunit as [| ? ? Hr1 Hrest]; subst.
  destruct (airportAt_unit r1 Hr1) as [o Ho].
  split.
  - intros H. destruct rest as [| r2 rest']; [constructor |].
    inversion Hrest as [| ? ? Hr2 _]; subst.
    destruct (airportAt_unit r2 Hr2) as [d Hd].
    unfold pickDifferentAirports, bind, Math_random in H.
    rewrite Ho, Hd in H.
    destruct (resample_waiting o rest' d H) as [E Hall].
    constructor.
    + exact (airportAt_same_code r1 r2 o d Ho Hd E).
    + rewrite Forall_forall in Hall. apply Forall_forall. intros x Hx.
      destruct (Hall x Hx) as (a & Ha & Ea).
      exact (airportAt_same_code r1 x o a Ho Ha Ea).
  - intros Hall. unfold pickDifferentAirports, bind, Math_random.
    destruct rest as [| r2 rest']; [reflexivity |].
    inversion Hall as [| ? ? H2 Hrest']; subst.
    rewrite H2, Ho.
    assert (Hsame : Forall (fun x => airportAt x = Some o) rest').
    { apply Forall_forall. intros x Hx. rewrite Forall_forall in Hrest'.
      rewrite (Hrest' x Hx). exact Ho. }
    pose proof (resample_skips o rest' (Some o) [] Hsame) as Hskip.
    rewrite app_nil_r in Hskip. exact Hskip.
Qed.

Lemma pick_waits_iff_draws_repeat_witness :
  Forall unit_draw [0.05; 0.05; 0.05] /\
  (pickDifferentAirports [0.05; 0.05; 0.05] = MoreDraws <->
   Forall (fun r => airportAt r = airportAt 0.05) [0.05; 0.05]).
Proof.
  assert (H : Forall unit_draw [0.05; 0.05; 0.05])
    by (repeat constructor; unfold unit_draw; lra).
  split; [exact H | exact (pick_waits_iff_draws_repeat 0.05 [0.05; 0.05] H)].
Defined.

(** Every number from 0 to 9998 prints as a callsign of the expected
    shape, and none of them as CC9999. *)
Lemma callsign_table :
  forallb (fun k => (callsign_shape (callsign_of (Z.of_nat k))
                     && negb (String.eqb (callsign_of (Z.of_nat k)) "CC9999"))%bool)
          (seq 0 (Z.to_nat 9999)) = true.
Proof. vm_compute. reflexivity. Qed.

Lemma callsign_of_shape (n : Z) :
  (0 <= n <= 9998)%Z ->
  callsign_shape (callsign_of n) = true /\ callsign_of n <> "CC9999"%string.
Proof.
  intros Hn. pose proof callsign_table as Htab.
  rewrite forallb_forall in Htab.
  specialize (Htab (Z.to_nat n)).
  rewrite Z2Nat.id in Htab by lia.
  assert (Hin : In (Z.to_nat n) (seq 0 (Z.to_nat 9999))) by (apply in_seq; lia).
  apply Htab in Hin. apply andb_prop in Hin as [Hshape Hneq].
  split; [exact Hshape |].
  intros E. rewrite E in Hneq. discriminate Hneq.
Qed.

(** The longitudes and latitudes of the catalog are valid ones. *)
Lemma catalog_coordinates (a : Airport) :
  In a AIRPORTS -> -90 < a_lat a < 90 /\ -180 <= a_lon a < 180.
Proof.
  intros H. unfold AIRPORTS in H.
  repeat (destruct H as [<- | H];
          [unfold JFK, LAX, ORD, DFW, YYZ, CDG, LHR, DXB, HND, SYD;
           cbn [a_lat a_lon]; lra |]).
  destruct H.
Qed.

(** X12.  On draws in [[0,1)] the callsign of a generated flight is CC
    followed by exactly four decimal digits, and it is never CC9999: the
    number is the integer part of a draw times 9999, at most 9998. *)
Theorem makeFlight_callsign
  (id0 : string) (now : Z) (ds ds' : list R) (f : Flight) :
  Forall unit_draw ds ->
  makeFlight id0 now ds = Done f ds' ->
  callsign_shape (callsign f) = true /\ callsign f <> "CC9999"%string.
Proof.
  intros Hds H.
  apply makeFlight_inv in H as (o & d & r1 & r2 & r3 & r4 & Hpick & ->).
  apply pickDifferentAirports_inv in Hpick as (_ & _ & _ & pre & ->).
  apply Forall_app in Hds as [_ Hds].
  inversion Hds as [| ? ? _ Hds1]; subst.
  inversion Hds1 as [| ? ? _ Hds2]; subst.
  inversion Hds2 as [| ? ? [H0 H1] _]; subst.
  cbn [callsign].
  change ("CC" ++ padStart0 4 (String_of_int (Math_floor (r3 * 9999))))%string
    with (callsign_of (Math_floor (r3 * 9999))).
  apply callsign_of_shape. unfold Math_floor.
  destruct (Zfloor_bound (r3 * 9999)) as [Hlo Hhi].
  split.
  - apply Zfloor_lub. simpl. lra.
  - assert (Zfloor (r3 * 9999) < 9999)%Z by (apply lt_IZR; lra). lia.
Qed.

Lemma makeFlight_callsign_witness :
  Forall unit_draw sample_draws /\
  makeFlight "V1StGXR8" 1700000000000 sample_draws = Done generated [] /\
  callsign_shape (callsign generated) = true /\
  callsign generated <> "CC9999"%string.
Proof.
  assert (H1 : Forall unit_draw sample_draws)
    by (repeat constructor; unfold unit_draw; lra).
  pose proof makeFlight_sample as H2.
  split; [exact H1 |]. split; [exact H2 |].
  exact (makeFlight_callsign _ _ _ _ _ H1 H2).
Defined.

(** X13.  A flight fresh from the generator carries the id it was given
    and the clock reading in both timestamps; its two codes are those of
    catalog airports, its heading is the bearing from the first to the
    second, in [[0, 360)], and on draws in [[0,1)] its position is the
    point [move] reaches from the origin airport along that heading after
    at least 10 and less than 60 km, with a latitude in [[-90, 90]] and a
    longitude in [[-180, 180)]. *)
Theorem makeFlight_fresh
  (id0 : string) (now : Z) (ds ds' : list R) (f : Flight) :
  Forall unit_draw ds ->
  makeFlight id0 now ds = Done f ds' ->
  id f = id0 /\ createdAt f = now /\ updatedAt f = now /\
  0 <= heading f < 360 /\
  -90 <= f_lat f <= 90 /\ -180 <= f_lon f < 180 /\
  exists o d dist,
    In o AIRPORTS /\ In d AIRPORTS /\ from f = iata o /\ to f = iata d /\
    heading f = bearingDegrees (at_airport o) (at_airport d) /\
    10 <= dist < 60 /\
    position f = move (at_airport o) (heading f) dist.
Proof.
  intros Hds H.
  apply makeFlight_inv in H as (o & d & r1 & r2 & r3 & r4 & Hpick & ->).
  apply pickDifferentAirports_inv in Hpick as (_ & Ho & Hd & pre & ->).
  apply Forall_app in Hds as [_ Hds].
  inversion Hds as [| ? ? _ Hds1]; subst.
  inversion Hds1 as [| ? ? _ Hds2]; subst.
  inversion Hds2 as [| ? ? _ Hds3]; subst.
  inversion Hds3 as [| ? ? [H0 H1] _]; subst.
  destruct (catalog_coordinates o Ho) as [_ Hlon].
  unfold position.
  cbn [id callsign from to f_lat f_lon heading createdAt updatedAt].
  pose proof (bearingDegrees_range (at_airport o) (at_airport d)) as Hb.
  pose proof (move_lat_window (mkPoint (a_lat o) (a_lon o))
                (bearingDegrees (at_airport o) (at_airport d)) (r4 * 50 + 10))
    as Hla.
  pose proof (move_lon_window (mkPoint (a_lat o) (a_lon o))
                (bearingDegrees (at_airport o) (at_airport d)) (r4 * 50 + 10))
    as Hlo.
  cbn [lon] in Hlo. specialize (Hlo ltac:(lra)).
  split; [reflexivity |]. split; [reflexivity |]. split; [reflexivity |].
  split; [exact Hb |]. split; [exact Hla |]. split; [exact Hlo |].
  exists o, d, (r4 * 50 + 10).
  split; [exact Ho |]. split; [exact Hd |].
  split; [reflexivity |]. split; [reflexivity |]. split; [reflexivity |].
  split; [lra |]. apply Point_eta.
Qed.

Lemma makeFlight_fresh_witness :
  Forall unit_draw sample_draws /\
  makeFlight "V1StGXR8" 1700000000000 sample_draws = Done generated [] /\
  id generated = "V1StGXR8"%string /\
  createdAt generated = 1700000000000%Z /\
  updatedAt generated = 1700000000000%Z /\
  0 <= heading generated < 360.
Proof.
  assert (H1 : Forall unit_draw sample_draws)
    by (repeat constructor; unfold unit_draw; lra).
  pose proof makeFlight_sample as H2.
  destruct (makeFlight_fresh _ _ _ _ _ H1 H2) as (Ha & Hb & Hc & Hd & _).
  split; [exact H1 |]. split; [exact H2 |]. split; [exact Ha |].
  split; [exact Hb |]. split; [exact Hc | exact Hd].
Defined.

(** X14.  On draws in [[0,1)] the generator throws nothing, and it
    finishes on exactly six of them when the first two select different
    airports. *)
Theorem makeFlight_finishes
  (id0 : string) (now : Z) (r1 r2 r3 r4 r5 r6 : R) (rest : list R) :
  unit_draw r1 -> unit_draw r2 ->
  Math_floor (r1 * 10) <> Math_floor (r2 * 10) ->
  (exists f, makeFlight id0 now (r1 :: r2 :: r3 :: r4 :: r5 :: r6 :: rest)
             = Done f rest) /\
  (forall ds, Forall unit_draw ds -> makeFlight id0 now ds <> TypeError).
Proof.
  intros Hr1 Hr2 Hne. split.
  - destruct (airportAt_unit r1 Hr1) as [o Ho].
    destruct (airportAt_unit r2 Hr2) as [d Hd].
    assert (Hcodes : iata d <> iata o).
    { intros Heq. apply Hne. revert Ho Hd Heq.
      unfold airportAt. rewrite AIRPORTS_length.
      apply catalog_codes_distinct. }
    unfold makeFlight. unfold bind at 1.
    rewrite (pickDifferentAirports_two r1 r2 _ o d Ho Hd Hcodes).
    unfold bind, ret, Math_random. eexists. reflexivity.
  - intros ds Hds. unfold makeFlight. unfold bind at 1.
    pose proof (pickDifferentAirports_no_throw ds Hds) as Hp.
    destruct (pickDifferentAirports ds) as [[o d] ds1 | |];
      [| discriminate | contradiction].
    unfold bind, ret, Math_random.
    destruct ds1 as [| a [| b [| c [| e ds2]]]]; discriminate.
Qed.

Lemma makeFlight_finishes_witness :
  unit_draw 0.05 /\ unit_draw 0.15 /\
  Math_floor (0.05 * 10) <> Math_floor (0.15 * 10) /\
  exists f, makeFlight "V1StGXR8" 0 [0.05; 0.15; 0.1; 0.2; 0.3; 0.4; 0.9]
            = Done f [0.9].
Proof.
  assert (H1 : unit_draw 0.05) by (unfold unit_draw; lra).
  assert (H2 : unit_draw 0.15) by (unfold unit_draw; lra).
  assert (H3 : Math_floor (0.05 * 10) <> Math_floor (0.15 * 10)).
  { rewrite (Math_floor_eq 0 (0.05 * 10)) by lra.
    rewrite (Math_floor_eq 1 (0.15 * 10)) by lra. discriminate. }
  repeat (split; [assumption |]).
  exact (proj1 (makeFlight_finishes "V1StGXR8" 0 0.05 0.15 0.1 0.2 0.3 0.4 [0.9]
                  H1 H2 H3)).
Defined.

(* ================================================================== *)
(** ** More about the tick engine *)
(* ================================================================== *)

(** Whatever the dividend, the remainder by a positive [y] is strictly
    between [-y] and [y]. *)
Lemma js_rem_magnitude (x y : R) : 0 < y -> - y < js_rem x y < y.
Proof.
  intros Hy. destruct (Rle_dec 0 x) as [Hx | Hx].
  - pose proof (js_rem_nonneg x y Hy Hx). lra.
  - unfold js_rem.
    assert (Hq : x / y < 0).
    { apply Rmult_lt_reg_r with y; [exact Hy |].
      unfold Rdiv. rewrite Rmult_assoc, Rinv_l by lra. lra. }
    rewrite Ztrunc_neg by exact Hq.
    destruct (Zceil_bound (x / y)) as [Hlo Hhi].
    assert (Hx' : x = x / y * y) by (field; lra).
    assert (H1 : (IZR (Zceil (x / y)) - 1) * y < x / y * y)
      by (apply Rmult_lt_compat_r; lra).
    assert (H2 : x / y * y <= IZR (Zceil (x / y)) * y)
      by (apply Rmult_le_compat_r; lra).
    lra.
Qed.

Lemma findAirport_catalog (a : Airport) :
  In a AIRPORTS -> findAirport (iata a) = Some a.
Proof.
  intros H. unfold AIRPORTS in H.
  repeat (destruct H as [<- | H]; [reflexivity |]).
  destruct H.
Qed.

(** The two ways a tick with elapsed time can end. *)
Lemma tick_elapsed_inv (f f' : Flight) (now : Z) (ds ds' : list R) :
  (updatedAt f < now)%Z ->
  tick f now ds = Done f' ds' ->
  let f1 := advance f now (elapsedHours f now) in
  (arrived f1 = true /\
   exists o d r, pickDifferentAirports ds = Done (o, d) (r :: ds') /\
     f' = mkFlight (id f) (callsign f) (iata o) (iata d) (f_lat f1) (f_lon f1)
            (js_rem (bearingDegrees (at_airport o) (at_airport d)
                     + (r * 2 - 1) * 2) 360)
            (speedKts f) (altitudeFt f) (createdAt f) now) \/
  (arrived f1 = false /\
   exists r, ds = r :: ds' /\
     f' = mkFlight (id f) (callsign f) (from f) (to f) (f_lat f1) (f_lon f1)
            (js_rem (heading f + (r * 2 - 1) * 2) 360)
            (speedKts f) (altitudeFt f) (createdAt f) now).
Proof.
  intros Hgt Htick. cbv zeta.
  rewrite tick_elapsed in Htick by exact Hgt. unfold bind in Htick.
  destruct (arrived _) eqn:Harr.
  - left. split; [reflexivity |].
    destruct (reroute _ ds) as [f2 ds2 | |] eqn:E; [| discriminate ..].
    apply reroute_inv in E as (o & d & Hpick & ->).
    apply wander_inv in Htick as (r & -> & ->).
    exists o, d, r. split; [exact Hpick | reflexivity].
  - right. split; [reflexivity |].
    unfold ret in Htick.
    apply wander_inv in Htick as (r & -> & ->).
    exists r. split; reflexivity.
Qed.

(** X15.  When time has elapsed, the position a tick leaves is the one
    [move] computes from the old position, the old heading and the
    distance flown, and [updatedAt] is the clock reading: neither
    depends on the draws or on whether the flight is re-routed. *)
Theorem tick_position (f f' : Flight) (now : Z) (ds ds' : list R) :
  (updatedAt f < now)%Z ->
  tick f now ds = Done f' ds' ->
  position f' =
    move (position f) (heading f) (speedKts f * 1.852 * elapsedHours f now) /\
  updatedAt f' = now.
Proof.
  intros Hgt Htick.
  destruct (tick_elapsed_inv f f' now ds ds' Hgt Htick)
    as [(_ & o & d & r & _ & ->) | (_ & r & _ & ->)];
    unfold position, advance; cbn [f_lat f_lon updatedAt];
    (split; [apply Point_eta | reflexivity]).
Qed.

Lemma tick_position_witness :
  (updatedAt inbound_LAX < 1000)%Z /\
  tick inbound_LAX 1000 [0.05; 0.15; 0.5] = Done inbound_LAX_rerouted [] /\
  position inbound_LAX_rerouted =
    move (position inbound_LAX) (heading inbound_LAX)
      (speedKts inbound_LAX * 1.852 * elapsedHours inbound_LAX 1000) /\
  updatedAt inbound_LAX_rerouted = 1000%Z.
Proof.
  assert (H1 : (updatedAt inbound_LAX < 1000)%Z)
    by (cbn [inbound_LAX updatedAt]; lia).
  pose proof inbound_LAX_tick as H2.
  split; [exact H1 |]. split; [exact H2 |].
  exact (tick_position _ _ _ _ _ H1 H2).
Defined.

(** X16.  A flight whose destination is in the catalog and which is, after
    the projection, 30 km or more away from it keeps both codes; the tick
    reads exactly one draw, for the wander of the heading. *)
Theorem tick_en_route (f : Flight) (now : Z) (r : R) (rest : list R)
  (dest : Airport) :
  (updatedAt f < now)%Z ->
  findAirport (to f) = Some dest ->
  30 <= distanceKm
          (move (position f) (heading f)
             (speedKts f * 1.852 * elapsedHours f now))
          (at_airport dest) ->
  let p := move (position f) (heading f)
             (speedKts f * 1.852 * elapsedHours f now) in
  tick f now (r :: rest) =
  Done (mkFlight (id f) (callsign f) (from f) (to f) (lat p) (lon p)
          (js_rem (heading f + (r * 2 - 1) * 2) 360)
          (speedKts f) (altitudeFt f) (createdAt f) now) rest.
Proof.
  intros Hgt Hfind Hfar. cbv zeta.
  rewrite tick_elapsed by exact Hgt.
  assert (Harr : arrived (advance f now (elapsedHours f now)) = false).
  { unfold arrived, advance. cbn [to f_lat f_lon]. rewrite Hfind.
    rewrite Point_eta.
    destruct (Rlt_dec _ 30) as [Hlt | _]; [| reflexivity].
    unfold position in Hfar. lra. }
  rewrite Harr. reflexivity.
Qed.

Lemma cruising_SYD_far :
  30 <= distanceKm
          (move (position cruising_SYD) (heading cruising_SYD)
             (speedKts cruising_SYD * 1.852 * elapsedHours cruising_SYD 60000))
          (at_airport SYD).
Proof.
  pose proof cruising_SYD_not_arrived as H.
  unfold arrived, advance in H. cbn [to f_lat f_lon] in H.
  change (to cruising_SYD) with "SYD"%string in H.
  rewrite findAirport_SYD, Point_eta in H.
  destruct (Rlt_dec _ 30) as [_ | Hn] in H; [discriminate |].
  unfold position. apply Rnot_lt_le. exact Hn.
Qed.

Lemma tick_en_route_witness :
  (updatedAt cruising_SYD < 60000)%Z /\
  findAirport (to cruising_SYD) = Some SYD /\
  30 <= distanceKm
          (move (position cruising_SYD) (heading cruising_SYD)
             (speedKts cruising_SYD * 1.852 * elapsedHours cruising_SYD 60000))
          (at_airport SYD) /\
  exists f', tick cruising_SYD 60000 [0.125; 0.5] = Done f' [0.5] /\
             from f' = "LAX"%string /\ to f' = "SYD"%string.
Proof.
  assert (H1 : (updatedAt cruising_SYD < 60000)%Z)
    by (cbn [cruising_SYD updatedAt]; lia).
  pose proof findAirport_SYD as H2.
  pose proof cruising_SYD_far as H3.
  split; [exact H1 |]. split; [exact H2 |]. split; [exact H3 |].
  eexists. split.
  - exact (tick_en_route cruising_SYD 60000 0.125 [0.5] SYD H1 H2 H3).
  - split; reflexivity.
Defined.

(** X17.  Once a tick has returned, ticking the flight it returned at the
    same or an earlier clock reading changes nothing and reads no draw. *)
Theorem tick_again_is_idle
  (f f' : Flight) (now now' : Z) (ds ds' ds'' : list R) :
  tick f now ds = Done f' ds' -> (now' <= now)%Z ->
  tick f' now' ds'' = Done f' ds''.
Proof.
  intros Htick Hle.
  apply tick_frame in Htick as (_ & _ & _ & _ & _ & Hu).
  apply tick_idle. lia.
Qed.

Lemma tick_again_is_idle_witness :
  tick cruising_SYD 60000 [0.125] = Done cruising_SYD_ticked [] /\
  (60000 <= 60000)%Z /\
  tick cruising_SYD_ticked 60000 [0.7] = Done cruising_SYD_ticked [0.7].
Proof.
  pose proof cruising_SYD_tick as H1.
  assert (H2 : (60000 <= 60000)%Z) by lia.
  split; [exact H1 |]. split; [exact H2 |].
  exact (tick_again_is_idle _ _ _ _ _ _ [0.7] H1 H2).
Defined.

(** X18.  When no re-route fires and the heading before the tick is at
    least 2 and below 360, a draw in [[0,1)] leaves a heading in
    [[0, 360)]: the old heading plus the wander, less 360 when that sum
    reaches 360. *)
Theorem tick_heading_stays_normalized
  (f f' : Flight) (now : Z) (r : R) (rest ds' : list R) :
  (updatedAt f < now)%Z ->
  arrived (advance f now (elapsedHours f now)) = false ->
  2 <= heading f < 360 -> unit_draw r ->
  tick f now (r :: rest) = Done f' ds' ->
  0 <= heading f' < 360 /\
  (heading f' = heading f + (r * 2 - 1) * 2 \/
   heading f' = heading f + (r * 2 - 1) * 2 - 360).
Proof.
  intros Hgt Harr Hh [Hr0 Hr1] Htick.
  destruct (tick_elapsed_inv f f' now _ ds' Hgt Htick)
    as [(Harr' & _) | (_ & r' & Hds & ->)].
  - rewrite Harr in Harr'. discriminate.
  - injection Hds as <- _. cbn [heading].
    set (h := heading f + (r * 2 - 1) * 2).
    assert (Hh' : 0 <= h < 362) by (unfold h; lra).
    split; [apply js_rem_nonneg; lra |].
    destruct (Rlt_dec h 360) as [Hlt | Hge].
    + left. apply js_rem_small. lra.
    + right. rewrite (js_rem_quot h 360 1); [lra | lra | lia | lra].
Qed.

Lemma tick_heading_stays_normalized_witness :
  (updatedAt stray < 3600000)%Z /\
  arrived (advance stray 3600000 (elapsedHours stray 3600000)) = false /\
  2 <= heading stray < 360 /\ unit_draw 0.75 /\
  exists f', tick stray 3600000 [0.75] = Done f' [] /\ 0 <= heading f' < 360.
Proof.
  assert (H1 : (updatedAt stray < 3600000)%Z) by (cbn [stray updatedAt]; lia).
  assert (H2 : arrived (advance stray 3600000 (elapsedHours stray 3600000)) = false)
    by (apply arrived_absent; exact findAirport_XXX).
  assert (H3 : 2 <= heading stray < 360) by (cbn [stray heading]; lra).
  assert (H4 : unit_draw 0.75) by (unfold unit_draw; lra).
  split; [exact H1 |]. split; [exact H2 |]. split; [exact H3 |].
  split; [exact H4 |].
  eexists. split.
  - rewrite tick_elapsed by exact H1. rewrite H2. reflexivity.
  - refine (proj1 (tick_heading_stays_normalized stray _ 3600000 0.75 [] []
                     H1 H2 H3 H4 _)).
    rewrite tick_elapsed by exact H1. rewrite H2. reflexivity.
Defined.

(** X19.  Both codes of a reachable flight are codes of catalog airports,
    so the lookup of its destination at line 121 always finds the
    airport: the arrival test is made on every tick with elapsed time. *)
Theorem reachable_codes_in_catalog (f : Flight) :
  reachable f ->
  exists o d, In o AIRPORTS /\ In d AIRPORTS /\
              from f = iata o /\ to f = iata d /\
              findAirport (to f) = Some d.
Proof.
  induction 1 as [id0 now ds ds' f Hmake | f f' now ds ds' Hreach IH Htick].
  - apply makeFlight_inv in Hmake as (o & d & r1 & r2 & r3 & r4 & Hpick & ->).
    apply pickDifferentAirports_inv in Hpick as (_ & Ho & Hd & _).
    exists o, d. cbn [from to].
    repeat split; try assumption. apply findAirport_catalog. exact Hd.
  - destruct (Z.le_gt_cases now (updatedAt f)) as [Hle | Hgt].
    + rewrite tick_idle in Htick by exact Hle.
      injection Htick as <- _. exact IH.
    + destruct (tick_elapsed_inv f f' now ds ds' Hgt Htick)
        as [(_ & o & d & r & Hpick & ->) | (_ & r & _ & ->)].
      * apply pickDifferentAirports_inv in Hpick as (_ & Ho & Hd & _).
        exists o, d. cbn [from to].
        repeat split; try assumption. apply findAirport_catalog. exact Hd.
      * cbn [from to]. exact IH.
Qed.

Lemma reachable_codes_in_catalog_witness :
  reachable generated /\
  exists o d, In o AIRPORTS /\ In d AIRPORTS /\
              from generated = iata o /\ to generated = iata d /\
              findAirport (to generated) = Some d.
Proof.
  assert (H : reachable generated)
    by exact (reach_make _ _ _ _ _ makeFlight_sample).
  split; [exact H | exact (reachable_codes_in_catalog generated H)].
Defined.

(** X20.  A reachable flight was never updated before it was created:
    [createdAt <= updatedAt]. *)
Theorem reachable_created_before_updated (f : Flight) :
  reachable f -> (createdAt f <= updatedAt f)%Z.
Proof.
  induction 1 as [id0 now ds ds' f Hmake | f f' now ds ds' Hreach IH Htick].
  - apply makeFlight_inv in Hmake as (o & d & r1 & r2 & r3 & r4 & _ & ->).
    cbn [createdAt updatedAt]. lia.
  - apply tick_frame in Htick as (_ & _ & _ & _ & Hc & Hu). lia.
Qed.

Lemma reachable_created_before_updated_witness :
  reachable generated /\ (createdAt generated <= updatedAt generated)%Z.
Proof.
  assert (H : reachable generated)
    by exact (reach_make _ _ _ _ _ makeFlight_sample).
  split; [exact H | exact (reachable_created_before_updated generated H)].
Defined.

(** X22.  The heading of a reachable flight is always strictly between
    -360 and 360. *)
Theorem reachable_heading_bounded (f : Flight) :
  reachable f -> -360 < heading f < 360.
Proof.
  induction 1 as [id0 now ds ds' f Hmake | f f' now ds ds' Hreach IH Htick].
  - apply makeFlight_inv in Hmake as (o & d & r1 & r2 & r3 & r4 & _ & ->).
    cbn [heading].
    pose proof (bearingDegrees_range (at_airport o) (at_airport d)). lra.
  - destruct (Z.le_gt_cases now (updatedAt f)) as [Hle | Hgt].
    + rewrite tick_idle in Htick by exact Hle.
      injection Htick as <- _. exact IH.
    + destruct (tick_elapsed_inv f f' now ds ds' Hgt Htick)
        as [(_ & o & d & r & _ & ->) | (_ & r & _ & ->)];
        cbn [heading]; apply js_rem_magnitude; lra.
Qed.

Lemma reachable_heading_bounded_witness :
  reachable generated /\ -360 < heading generated < 360.
Proof.
  assert (H : reachable generated)
    by exact (reach_make _ _ _ _ _ makeFlight_sample).
  split; [exact H | exact (reachable_heading_bounded generated H)].
Defined.

(** X23.  However often a flight is ticked, its id, callsign, speed,
    altitude and creation time stay what they were, and its [updatedAt]
    never goes back. *)
Theorem ticks_keep_identity (f g : Flight) :
  ticks_to f g ->
  id g = id f /\ callsign g = callsign f /\ speedKts g = speedKts f /\
  altitudeFt g = altitudeFt f /\ createdAt g = createdAt f /\
  (updatedAt f <= updatedAt g)%Z.
Proof.
  induction 1 as [f | f g h now ds ds' _ IH Htick].
  - repeat split; first [reflexivity | lia].
  - destruct IH as (H1 & H2 & H3 & H4 & H5 & H6).
    apply tick_frame in Htick as (T1 & T2 & T3 & T4 & T5 & T6).
    repeat split; first [congruence | lia].
Qed.

Lemma ticks_keep_identity_witness :
  ticks_to cruising_SYD cruising_SYD_ticked /\
  id cruising_SYD_ticked = id cruising_SYD /\
  callsign cruising_SYD_ticked = callsign cruising_SYD /\
  speedKts cruising_SYD_ticked = speedKts cruising_SYD /\
  altitudeFt cruising_SYD_ticked = altitudeFt cruising_SYD /\
  createdAt cruising_SYD_ticked = createdAt cruising_SYD /\
  (updatedAt cruising_SYD <= updatedAt cruising_SYD_ticked)%Z.
Proof.
  assert (H : ticks_to cruising_SYD cruising_SYD_ticked)
    by exact (ticks_more _ _ _ _ _ _ (ticks_none cruising_SYD) cruising_SYD_tick).
  split; [exact H | exact (ticks_keep_identity _ _ H)].
Defined.

(* ================================================================== *)
(** ** The store and the handlers *)
(* ================================================================== *)

Lemma store_get_none (s : Store) (k : string) :
  store_get s k = None <-> ~ In k (store_keys s).
Proof.
  induction s as [| [k' f] s IH]; simpl.
  - split; [intros _ [] | reflexivity].
  - destruct (String.eqb_spec k' k) as [E | E].
    + split; [discriminate | intros H; exfalso; apply H; left; exact E].
    + rewrite IH. split.
      * intros H [H' | H']; [contradiction | apply H; exact H'].
      * intros H H'. apply H. right. exact H'.
Qed.

Lemma store_get_In (s : Store) (k : string) (f : Flight) :
  store_get s k = Some f -> In (k, f) s.
Proof.
  induction s as [| [k' f'] s IH]; simpl; [discriminate |].
  destruct (String.eqb_spec k' k) as [E | E].
  - intros H. injection H as <-. left. rewrite E. reflexivity.
  - intros H. right. exact (IH H).
Qed.

Lemma store_get_set_same (s : Store) (k : string) (f : Flight) :
  store_get (store_set s k f) k = Some f.
Proof.
  induction s as [| [k' f'] s IH]; simpl.
  - rewrite String.eqb_refl. reflexivity.
  - destruct (String.eqb_spec k' k) as [E | E]; simpl.
    + rewrite E, String.eqb_refl. reflexivity.
    + destruct (String.eqb_spec k' k); [contradiction | exact IH].
Qed.

Lemma store_get_set_other (s : Store) (k k' : string) (f : Flight) :
  k' <> k -> store_get (store_set s k f) k' = store_get s k'.
Proof.
  intros Hne. induction s as [| [k0 f0] s IH]; simpl.
  - destruct (String.eqb_spec k k'); [congruence | reflexivity].
  - destruct (String.eqb_spec k0 k) as [E | E]; simpl.
    + destruct (String.eqb_spec k0 k'); [congruence | reflexivity].
    + destruct (String.eqb_spec k0 k'); [reflexivity | exact IH].
Qed.

Lemma store_set_keys_present (s : Store) (k : string) (f : Flight) :
  In k (store_keys s) -> store_keys (store_set s k f) = store_keys s.
Proof.
  induction s as [| [k' f'] s IH]; simpl; [intros [] |].
  intros Hin. destruct (String.eqb_spec k' k) as [E | E]; simpl.
  - reflexivity.
  - destruct Hin as [H | H]; [contradiction |].
    f_equal. exact (IH H).
Qed.

Lemma store_set_keys_absent (s : Store) (k : string) (f : Flight) :
  ~ In k (store_keys s) -> store_keys (store_set s k f) = store_keys s ++ [k].
Proof.
  induction s as [| [k' f'] s IH]; simpl; [reflexivity |].
  intros Hn. destruct (String.eqb_spec k' k) as [E | E]; simpl.
  - exfalso. apply Hn. left. exact E.
  - f_equal. apply IH. intros H. apply Hn. right. exact H.
Qed.

Lemma store_set_values (s : Store) (k : string) (f : Flight) (kf : string * Flight) :
  In kf (store_set s k f) -> kf = (k, f) \/ In kf s.
Proof.
  induction s as [| [k' f'] s IH]; simpl.
  - intros [H | []]. left. symmetry. exact H.
  - destruct (String.eqb_spec k' k) as [E | E]; simpl.
    + intros [H | H]; [left; rewrite <- H, E; reflexivity | right; right; exact H].
    + intros [H | H]; [right; left; exact H |].
      destruct (IH H) as [H' | H']; [left; exact H' | right; right; exact H'].
Qed.

Lemma store_set_length (s : Store) (k : string) (f : Flight) :
  (List.length (store_set s k f) <= S (List.length s))%nat.
Proof.
  induction s as [| [k' f'] s IH]; simpl; [lia |].
  destruct (String.eqb k' k); simpl; lia.
Qed.

(** Filing a reachable flight under its own id keeps the store in
    order. *)
Lemma store_ok_set (s : Store) (k : string) (f : Flight) :
  store_ok s -> id f = k -> reachable f -> store_ok (store_set s k f).
Proof.
  intros [Hnd Hall] Hid Hreach. split.
  - destruct (in_dec string_dec k (store_keys s)) as [Hin | Hout].
    + rewrite store_set_keys_present by exact Hin. exact Hnd.
    + rewrite store_set_keys_absent by exact Hout.
      apply NoDup_app; [exact Hnd | repeat constructor; intros [] | ].
      intros x Hx [Hx' | []]. subst x. contradiction.
  - apply Forall_forall. intros kf Hkf.
    destruct (store_set_values _ _ _ _ Hkf) as [-> | Hin].
    + split; [exact Hid | exact Hreach].
    + rewrite Forall_forall in Hall. exact (Hall kf Hin).
Qed.

Lemma store_ok_get (s : Store) (k : string) (f : Flight) :
  store_ok s -> store_get s k = Some f -> id f = k /\ reachable f.
Proof.
  intros [_ Hall] Hget. rewrite Forall_forall in Hall.
  exact (Hall (k, f) (store_get_In _ _ _ Hget)).
Qed.

(** What the startup loop does to any store it starts from. *)
Lemma populate_spec (n : nat) :
  forall nanoid clock s ds s' ds',
    populate n nanoid clock s ds = Done s' ds' ->
    store_ok s ->
    store_ok s' /\
    (List.length s' <= List.length s + n)%nat /\
    (forall k, In k (store_keys s') <->
               In k (store_keys s) \/ exists i, (i < n)%nat /\ nanoid i = k) /\
    (NoDup (store_keys s ++ map nanoid (seq 0 n)) ->
     store_keys s' = store_keys s ++ map nanoid (seq 0 n)).
Proof.
  induction n as [| n IH]; intros nanoid clock s ds s' ds' H Hok; simpl in H.
  - unfold ret in H. injection H as <- <-.
    split; [exact Hok |]. split; [lia |]. split.
    + intros k. split; [intros Hk; left; exact Hk |].
      intros [Hk | (i & Hi & _)]; [exact Hk | lia].
    + intros _. simpl. rewrite app_nil_r. reflexivity.
  - unfold bind in H.
    destruct (makeFlight (nanoid O) (clock O) ds) as [f ds1 | |] eqn:Emake;
      [| discriminate ..].
    assert (Hid : id f = nanoid O).
    { apply makeFlight_inv in Emake as (o & d & r1 & r2 & r3 & r4 & _ & ->).
      reflexivity. }
    assert (Hreach : reachable f) by exact (reach_make _ _ _ _ _ Emake).
    pose proof (store_ok_set s (nanoid O) f Hok Hid Hreach) as Hok1.
    destruct (IH _ _ _ _ _ _ H Hok1) as (Hok' & Hlen & Hkeys & Hdistinct).
    pose proof (store_set_length s (nanoid O) f) as Hlen1.
    assert (Hkeys1 : forall k, In k (store_keys (store_set s (nanoid O) f)) <->
                               In k (store_keys s) \/ k = nanoid O).
    { intros k.
      destruct (in_dec string_dec (nanoid O) (store_keys s)) as [Hin | Hout].
      - rewrite store_set_keys_present by exact Hin.
        split; [intros Hk; left; exact Hk |].
        intros [Hk | ->]; assumption.
      - rewrite store_set_keys_absent by exact Hout.
        rewrite in_app_iff. simpl. split.
        + intros [Hk | [Hk | []]]; [left; exact Hk | right; symmetry; exact Hk].
        + intros [Hk | ->]; [left; exact Hk | right; left; reflexivity]. }
    split; [exact Hok' |]. split; [lia |]. split.
    + intros k. rewrite Hkeys, Hkeys1. split.
      * intros [[Hk | ->] | (i & Hi & Hk)].
        -- left. exact Hk.
        -- right. exists O. split; [lia | reflexivity].
        -- right. exists (S i). split; [lia | exact Hk].
      * intros [Hk | (i & Hi & Hk)]; [left; left; exact Hk |].
        destruct i as [| i].
        -- left. right. symmetry. exact Hk.
        -- right. exists i. split; [lia | exact Hk].
    + intros Hnd. simpl in Hnd.
      assert (Hout : ~ In (nanoid O) (store_keys s)).
      { intros Hin. apply NoDup_remove_2 in Hnd. apply Hnd.
        apply in_or_app. left. exact Hin. }
      rewrite store_set_keys_absent in Hdistinct by exact Hout.
      assert (Hshift : map (later nanoid) (seq 0 n) = map nanoid (seq 1 n)).
      { rewrite <- seq_shift, map_map. reflexivity. }
      rewrite Hshift in Hdistinct. rewrite <- app_assoc in Hdistinct.
      simpl in Hdistinct. simpl. apply Hdistinct.
      apply NoDup_remove_1 in Hnd as Hnd1.
      pose proof Hnd as Hnd2. apply NoDup_remove_2 in Hnd2.
      apply NoDup_app.
      * apply NoDup_app_remove_r in Hnd1. exact Hnd1.
      * constructor.
        -- intros Hin. apply Hnd2. apply in_or_app. right. exact Hin.
        -- apply NoDup_app_remove_l in Hnd1. exact Hnd1.
      * intros x Hx [<- | Hx'].
        -- contradiction.
        -- revert x Hx Hx'. clear - Hnd1. 
           induction (store_keys s) as [| a l IHl]; intros x Hx Hx'; [destruct Hx |].
           simpl in Hnd1. inversion Hnd1 as [| ? ? Ha Hl]; subst.
           destruct Hx as [<- | Hx].
           ++ apply Ha. apply in_or_app. right. exact Hx'.
           ++ exact (IHl Hl x Hx Hx').
Qed.

(** Every draw list that starts with [sample_draws] builds the sample
    flight, under the id and the clock reading given. *)
Lemma makeFlight_sample_at (id0 : string) (now : Z) (rest : list R) :
  makeFlight id0 now (sample_draws ++ rest) = Done (generated_at id0 now) rest.
Proof.
  unfold makeFlight, sample_draws.
  change ([0.05; 0.15; 0.5; 0.5; 0.5; 0.5] ++ rest)
    with (0.05 :: 0.15 :: 0.5 :: 0.5 :: 0.5 :: 0.5 :: rest).
  unfold bind at 1. rewrite pick_JFK_LAX.
  unfold bind, ret, Math_random.
  rewrite (Math_floor_eq 470 (380 + 0.5 * 180)) by lra.
  rewrite (Math_floor_eq 34000 (28000 + 0.5 * 12000)) by lra.
  rewrite (Math_floor_eq 4999 (0.5 * 9999)) by lra.
  reflexivity.
Qed.

(** A startup whose rounds all draw [sample_draws]. *)
Lemma populate_sample (n : nat) :
  forall nanoid clock s rest,
    populate n nanoid clock s (List.concat (repeat sample_draws n) ++ rest)
    = Done (filed n nanoid clock s) rest.
Proof.
  induction n as [| n IH]; intros nanoid clock s rest.
  - reflexivity.
  - change (List.concat (repeat sample_draws (S n)))
      with (sample_draws ++ List.concat (repeat sample_draws n)).
    rewrite <- app_assoc.
    change (populate (S n) nanoid clock s)
      with (bind (makeFlight (nanoid O) (clock O))
              (fun f => populate n (later nanoid) (later clock)
                          (store_set s (nanoid O) f))).
    unfold bind. rewrite makeFlight_sample_at. apply IH.
Qed.

Lemma FLIGHTS_sample :
  FLIGHTS sample_ids sample_clock (List.concat (repeat sample_draws 20))
  = Done sample_store [].
Proof.
  unfold FLIGHTS, FLIGHT_COUNT.
  rewrite <- (app_nil_r (List.concat (repeat sample_draws 20))).
  rewrite populate_sample. reflexivity.
Qed.

(** Which flight the startup loop leaves under a key: the one of the last
    round that drew this id, or the one that was there when no round
    did. *)
Lemma populate_last_wins (n : nat) :
  forall nanoid clock s ds s' ds',
    populate n nanoid clock s ds = Done s' ds' ->
    forall k f, store_get s' k = Some f ->
      ((forall i, (i < n)%nat -> nanoid i <> k) /\ store_get s k = Some f) \/
      (exists i da db,
          (i < n)%nat /\ nanoid i = k /\
          (forall j, (i < j < n)%nat -> nanoid j <> k) /\
          makeFlight k (clock i) da = Done f db).
Proof.
  induction n as [| n IH]; intros nanoid clock s ds s' ds' H k f Hget;
    simpl in H.
  - unfold ret in H. injection H as <- _.
    left. split; [intros i Hi; lia | exact Hget].
  - unfold bind in H.
    destruct (makeFlight (nanoid O) (clock O) ds) as [f0 ds1 | |] eqn:Emake;
      [| discriminate ..].
    destruct (IH _ _ _ _ _ _ H k f Hget)
      as [(Hnone & Hget1) | (i & da & db & Hi & Hk & Hlast & Hmake)].
    + destruct (string_dec (nanoid O) k) as [E | E].
      * right. exists O, ds, ds1. rewrite <- E in Hget1.
        rewrite store_get_set_same in Hget1. injection Hget1 as <-.
        split; [lia |]. split; [exact E |]. split.
        -- intros j Hj. destruct j as [| j]; [lia |].
           apply (Hnone j). lia.
        -- rewrite <- E. exact Emake.
      * left. rewrite store_get_set_other in Hget1
          by (intros E'; apply E; symmetry; exact E').
        split; [| exact Hget1].
        intros i Hi. destruct i as [| i]; [exact E | apply (Hnone i); lia].
    + right. exists (S i), da, db.
      split; [lia |]. split; [exact Hk |]. split; [| exact Hmake].
      intros j Hj. destruct j as [| j]; [lia |].
      apply (Hlast j). lia.
Qed.

(** X24.  The store the startup loop leaves holds at most 20 flights, no
    key twice, each filed under its own id; its keys are exactly the ids
    [nanoid] returned, in the order they were drawn when those 20 ids are
    all different; and the flight under a key is the one [makeFlight]
    built, for that id and with the clock reading of that round, in the
    last round whose id was that key: a repeated id overwrites the
    earlier flight. *)
Theorem FLIGHTS_at_startup
  (nanoid : nat -> string) (clock : nat -> Z) (ds ds' : list R) (s : Store) :
  FLIGHTS nanoid clock ds = Done s ds' ->
  store_ok s /\
  (List.length s <= 20)%nat /\
  (forall k, In k (store_keys s) <-> exists i, (i < 20)%nat /\ nanoid i = k) /\
  (NoDup (map nanoid (seq 0 20)) -> store_keys s = map nanoid (seq 0 20)) /\
  (forall k f, store_get s k = Some f ->
     exists i da db,
       (i < 20)%nat /\ nanoid i = k /\
       (forall j, (i < j < 20)%nat -> nanoid j <> k) /\
       makeFlight k (clock i) da = Done f db).
Proof.
  intros H. unfold FLIGHTS, FLIGHT_COUNT in H.
  assert (Hempty : store_ok []).
  { split; [constructor | constructor]. }
  destruct (populate_spec 20 nanoid clock [] ds s ds' H Hempty)
    as (Hok & Hlen & Hkeys & Hdistinct).
  split; [exact Hok |]. split; [exact Hlen |]. split; [| split].
  - intros k. rewrite Hkeys. simpl. split.
    + intros [[] | Hk]. exact Hk.
    + intros Hk. right. exact Hk.
  - exact Hdistinct.
  - intros k f Hget.
    destruct (populate_last_wins 20 nanoid clock [] ds s ds' H k f Hget)
      as [(_ & Hnil) | Hlast].
    + discriminate Hnil.
    + exact Hlast.
Qed.

Lemma FLIGHTS_at_startup_witness :
  FLIGHTS sample_ids sample_clock (List.concat (repeat sample_draws 20))
  = Done sample_store [] /\
  store_ok sample_store /\
  (List.length sample_store <= 20)%nat /\
  (forall k f, store_get sample_store k = Some f ->
     exists i da db,
       (i < 20)%nat /\ sample_ids i = k /\
       (forall j, (i < j < 20)%nat -> sample_ids j <> k) /\
       makeFlight k (sample_clock i) da = Done f db).
Proof.
  pose proof FLIGHTS_sample as H.
  destruct (FLIGHTS_at_startup _ _ _ _ _ H) as (H1 & H2 & _ & _ & H3).
  split; [exact H |]. split; [exact H1 |]. split; [exact H2 | exact H3].
Defined.

(** X25.  Asking for an id that is not a key of the store is answered
    with 404; the store is left as it was, the clock is not read and no
    draw is consumed. *)
Theorem getFlight_unknown_id (s : Store) (k : string) (now : Z) (ds : list R) :
  ~ In k (store_keys s) ->
  getFlight s k now ds = Done (Status404, s) ds.
Proof.
  intros Hout. unfold getFlight.
  apply store_get_none in Hout. rewrite Hout. reflexivity.
Qed.

Lemma getFlight_unknown_id_witness :
  ~ In "nosuchid"%string (store_keys [("V1StGXR8"%string, generated)]) /\
  getFlight [("V1StGXR8"%string, generated)] "nosuchid" 5 [0.5]
  = Done (Status404, [("V1StGXR8"%string, generated)]) [0.5].
Proof.
  assert (H : ~ In "nosuchid"%string (store_keys [("V1StGXR8"%string, generated)])).
  { simpl. intros [E | []]. discriminate E. }
  split; [exact H | exact (getFlight_unknown_id _ _ 5 [0.5] H)].
Defined.

(** X26.  Asking for a key of a store in order ticks the flight filed
    under it: the answer is the ticked flight, it carries the id that was
    asked for, the store now holds it under that key, every other key
    holds what it held, the keys and their order are unchanged and the
    store is still in order. *)
Theorem getFlight_known_id
  (s s' : Store) (k : string) (now : Z) (ds ds' : list R) (resp : Response) :
  store_ok s -> In k (store_keys s) ->
  getFlight s k now ds = Done (resp, s') ds' ->
  exists f f',
    store_get s k = Some f /\ tick f now ds = Done f' ds' /\
    resp = Json_flight f' /\ id f' = k /\
    store_get s' k = Some f' /\
    (forall k', k' <> k -> store_get s' k' = store_get s k') /\
    store_keys s' = store_keys s /\ store_ok s'.
Proof.
  intros Hok Hin H. unfold getFlight in H.
  destruct (store_get s k) as [f |] eqn:Eget.
  - unfold bind, ret in H.
    destruct (tick f now ds) as [f' ds1 | |] eqn:Etick; [| discriminate ..].
    injection H as <- <- <-.
    destruct (store_ok_get s k f Hok Eget) as [Hid Hreach].
    assert (Hid' : id f' = k).
    { apply tick_frame in Etick as (E & _). congruence. }
    assert (Hreach' : reachable f') by exact (reach_tick _ _ _ _ _ Hreach Etick).
    exists f, f'. split; [reflexivity |]. split; [exact Etick |].
    split; [reflexivity |]. split; [exact Hid' |].
    split; [apply store_get_set_same |].
    split; [intros k' Hne; apply store_get_set_other; exact Hne |].
    split; [apply store_set_keys_present; exact Hin |].
    apply store_ok_set; assumption.
  - apply store_get_none in Eget. contradiction.
Qed.

Lemma getFlight_known_id_witness :
  store_ok [("V1StGXR8"%string, generated)] /\
  In "V1StGXR8"%string (store_keys [("V1StGXR8"%string, generated)]) /\
  getFlight [("V1StGXR8"%string, generated)] "V1StGXR8" 0 [0.5]
  = Done (Json_flight generated, [("V1StGXR8"%string, generated)]) [0.5] /\
  exists f f',
    store_get [("V1StGXR8"%string, generated)] "V1StGXR8" = Some f /\
    tick f 0 [0.5] = Done f' [0.5] /\ id f' = "V1StGXR8"%string.
Proof.
  assert (H1 : store_ok [("V1StGXR8"%string, generated)]).
  { split.
    - repeat constructor. intros [].
    - repeat constructor. exact (reach_make _ _ _ _ _ makeFlight_sample). }
  assert (H2 : In "V1StGXR8"%string (store_keys [("V1StGXR8"%string, generated)]))
    by (left; reflexivity).
  assert (H3 : getFlight [("V1StGXR8"%string, generated)] "V1StGXR8" 0 [0.5]
               = Done (Json_flight generated, [("V1StGXR8"%string, generated)]) [0.5]).
  { unfold getFlight.
    change (store_get [("V1StGXR8"%string, generated)] "V1StGXR8")
      with (Some generated).
    unfold bind.
    rewrite tick_idle by (cbn [generated updatedAt]; lia). reflexivity. }
  destruct (getFlight_known_id _ _ _ _ _ _ _ H1 H2 H3)
    as (f & f' & Ha & Hb & _ & Hc & _).
  split; [exact H1 |]. split; [exact H2 |]. split; [exact H3 |].
  exists f, f'. split; [exact Ha |]. split; [exact Hb | exact Hc].
Defined.

(** The loop of the list handler ticks the entries in turn. *)
Lemma tickEach_in_turn (s : Store) :
  forall clock ds s' ds',
    tickEach s clock ds = Done s' ds' -> ticked_in_turn s clock ds s' ds'.
Proof.
  induction s as [| [k f] s IH]; intros clock ds s' ds' H; simpl in H.
  - unfold ret in H. injection H as <- <-. constructor.
  - unfold bind, ret in H.
    destruct (tick f (clock O) ds) as [f' ds1 | |] eqn:Etick; [| discriminate ..].
    destruct (tickEach s (later clock) ds1) as [s1 ds2 | |] eqn:Erest;
      [| discriminate ..].
    injection H as <- <-.
    exact (turn_next k f f' s s1 clock ds ds1 ds2 Etick (IH _ _ _ _ Erest)).
Qed.

Lemma tickEach_cons (k : string) (f f' : Flight) (s s1 : Store)
  (clock : nat -> Z) (ds ds1 ds2 : list R) :
  tick f (clock O) ds = Done f' ds1 ->
  tickEach s (later clock) ds1 = Done s1 ds2 ->
  tickEach ((k, f) :: s) clock ds = Done ((k, f') :: s1) ds2.
Proof.
  intros Ht Hs. simpl. unfold bind, ret. rewrite Ht, Hs. reflexivity.
Qed.

(** Entry by entry: the i-th entry keeps its key and holds the flight
    that [tick] returned for it at the i-th reading of the clock. *)
Lemma ticked_in_turn_nth (s s' : Store) (clock : nat -> Z) (ds ds' : list R) :
  ticked_in_turn s clock ds s' ds' ->
  forall i k f, nth_error s i = Some (k, f) ->
    exists f' da db,
      nth_error s' i = Some (k, f') /\ tick f (clock i) da = Done f' db.
Proof.
  induction 1 as [clock ds | k0 f0 f0' s s' clock ds ds1 ds' Htick _ IH];
    intros i k f Hnth.
  - destruct i; discriminate Hnth.
  - destruct i as [| i]; simpl in Hnth.
    + injection Hnth as <- <-. exists f0', ds, ds1.
      split; [reflexivity | exact Htick].
    + destruct (IH i k f Hnth) as (f' & da & db & Hn & Ht).
      exists f', da, db. split; [exact Hn | exact Ht].
Qed.

Lemma ticked_in_turn_keys (s s' : Store) (clock : nat -> Z) (ds ds' : list R) :
  ticked_in_turn s clock ds s' ds' -> store_keys s' = store_keys s.
Proof.
  induction 1 as [| k f f' s s' clock ds ds1 ds' _ _ IH]; simpl.
  - reflexivity.
  - rewrite IH. reflexivity.
Qed.

Lemma ticked_in_turn_ok (s s' : Store) (clock : nat -> Z) (ds ds' : list R) :
  ticked_in_turn s clock ds s' ds' ->
  Forall (fun kf => id (snd kf) = fst kf /\ reachable (snd kf)) s ->
  Forall (fun kf => id (snd kf) = fst kf /\ reachable (snd kf)) s'.
Proof.
  induction 1 as [| k f f' s s' clock ds ds1 ds' Htick _ IH]; intros Hall.
  - constructor.
  - inversion Hall as [| ? ? [Hid Hreach] Hall0]; subst. cbn [fst snd] in *.
    constructor; [| exact (IH Hall0)].
    cbn [fst snd]. split.
    + apply tick_frame in Htick as (E & _). congruence.
    + exact (reach_tick _ _ _ _ _ Hreach Htick).
Qed.

(** X27.  The list handler ticks the entries of the store in store order,
    the i-th with the i-th clock reading of the request, each on the
    draws the one before it left; it answers with the flights those ticks
    returned, one per entry, which are what the store holds afterwards
    under the same keys in the same order; each carries the id it is
    filed under, and the store is still in order. *)
Theorem listFlights_answer
  (s s' : Store) (clock : nat -> Z) (ds ds' : list R) (resp : Response) :
  store_ok s ->
  listFlights s clock ds = Done (resp, s') ds' ->
  resp = Json_list (store_values s') /\
  ticked_in_turn s clock ds s' ds' /\
  (forall i k f, nth_error s i = Some (k, f) ->
     exists f' da db,
       nth_error s' i = Some (k, f') /\ tick f (clock i) da = Done f' db) /\
  map id (store_values s') = store_keys s /\
  store_keys s' = store_keys s /\
  store_ok s'.
Proof.
  intros Hok H. unfold listFlights, bind, ret in H.
  destruct (tickEach s clock ds) as [s1 ds1 | |] eqn:Eeach; [| discriminate ..].
  injection H as <- <- <-.
  apply tickEach_in_turn in Eeach.
  destruct Hok as [Hnd Hall].
  pose proof (ticked_in_turn_keys _ _ _ _ _ Eeach) as Hkeys.
  pose proof (ticked_in_turn_ok _ _ _ _ _ Eeach Hall) as Hall'.
  split; [reflexivity |]. split; [exact Eeach |].
  split; [exact (ticked_in_turn_nth _ _ _ _ _ Eeach) |].
  split.
  - rewrite <- Hkeys. unfold store_values, store_keys.
    rewrite map_map. apply map_ext_in. intros kf Hkf.
    rewrite Forall_forall in Hall'. exact (proj1 (Hall' kf Hkf)).
  - split; [exact Hkeys |].
    split; [rewrite Hkeys; exact Hnd | exact Hall'].
Qed.

(** How a tick with elapsed time uses three draws of which the first two
    select different airports: one draw when the flight stays en route,
    all three when it is re-routed. *)
Lemma tick_on_three (f : Flight) (now : Z) (r1 r2 r3 : R) (rest : list R) :
  (updatedAt f < now)%Z -> unit_draw r1 -> unit_draw r2 ->
  Math_floor (r1 * 10) <> Math_floor (r2 * 10) ->
  exists f',
    updatedAt f' = now /\
    (tick f now (r1 :: r2 :: r3 :: rest) = Done f' (r2 :: r3 :: rest) \/
     tick f now (r1 :: r2 :: r3 :: rest) = Done f' rest).
Proof.
  intros Hgt Hr1 Hr2 Hne.
  rewrite tick_elapsed by exact Hgt. unfold bind.
  destruct (arrived _).
  - destruct (airportAt_unit r1 Hr1) as [o Ho].
    destruct (airportAt_unit r2 Hr2) as [d Hd].
    assert (Hcodes : iata d <> iata o).
    { intros Heq. apply Hne. revert Ho Hd Heq.
      unfold airportAt. rewrite AIRPORTS_length.
      apply catalog_codes_distinct. }
    unfold reroute, bind.
    rewrite (pickDifferentAirports_two r1 r2 (r3 :: rest) o d Ho Hd Hcodes).
    unfold ret, wander, bind, Math_random.
    eexists. split; [| right; reflexivity]. reflexivity.
  - unfold ret, wander, bind, Math_random.
    eexists. split; [| left; reflexivity]. reflexivity.
Qed.

Lemma sample_store_ok : store_ok sample_store.
Proof.
  split.
  - unfold sample_store, store_keys. cbn [map fst].
    constructor; [intros [E | []]; discriminate E |].
    constructor; [intros [] | constructor].
  - unfold sample_store.
    constructor; [| constructor; [| constructor]]; cbn [fst snd];
      (split; [reflexivity |]).
    + exact (reach_make _ _ _ _ _ (makeFlight_sample_at "V1StGXR8" 1700000000000 [])).
    + exact (reach_make _ _ _ _ _ (makeFlight_sample_at "Z5a1xk9Q" 1700000000019 [])).
Qed.

(** The list request on [sample_store] a minute later ends, having ticked
    both flights. *)
Lemma listFlights_sample_run :
  exists s' ds',
    listFlights sample_store request_clock request_draws
    = Done (Json_list (store_values s'), s') ds'.
Proof.
  assert (U1 : unit_draw 0.05) by (unfold unit_draw; lra).
  assert (U2 : unit_draw 0.15) by (unfold unit_draw; lra).
  assert (U3 : unit_draw 0.5) by (unfold unit_draw; lra).
  assert (F1 : Math_floor (0.05 * 10) = 0%Z) by (apply Math_floor_eq; lra).
  assert (F2 : Math_floor (0.15 * 10) = 1%Z) by (apply Math_floor_eq; lra).
  assert (F3 : Math_floor (0.5 * 10) = 5%Z) by (apply Math_floor_eq; lra).
  assert (N12 : Math_floor (0.05 * 10) <> Math_floor (0.15 * 10))
    by (rewrite F1, F2; discriminate).
  assert (N23 : Math_floor (0.15 * 10) <> Math_floor (0.5 * 10))
    by (rewrite F2, F3; discriminate).
  assert (G1 : (updatedAt (generated_at "V1StGXR8" 1700000000000)
                < request_clock O)%Z)
    by (unfold request_clock; cbn [generated_at updatedAt]; lia).
  assert (G2 : (updatedAt (generated_at "Z5a1xk9Q" 1700000000019)
                < later request_clock O)%Z)
    by (unfold later, request_clock; cbn [generated_at updatedAt]; lia).
  assert (Hrun : forall f1 f2 d1 d2,
             tick (generated_at "V1StGXR8" 1700000000000) (request_clock O)
               request_draws = Done f1 d1 ->
             tick (generated_at "Z5a1xk9Q" 1700000000019)
               (later request_clock O) d1 = Done f2 d2 ->
             listFlights sample_store request_clock request_draws
             = Done (Json_list
                       (store_values [("V1StGXR8"%string, f1); ("Z5a1xk9Q"%string, f2)]),
                     [("V1StGXR8"%string, f1); ("Z5a1xk9Q"%string, f2)]) d2).
  { intros f1 f2 d1 d2 E1 E2. unfold listFlights, sample_store.
    unfold bind at 1.
    rewrite (tickEach_cons _ _ _ _ _ _ _ _ _ E1
               (tickEach_cons _ _ _ [] [] _ _ _ _ E2 eq_refl)).
    reflexivity. }
  unfold request_draws in Hrun at 1.
  destruct (tick_on_three _ _ 0.05 0.15 0.5 [0.05; 0.15; 0.5] G1 U1 U2 N12)
    as (f1 & _ & [E1 | E1]).
  - destruct (tick_on_three _ _ 0.15 0.5 0.05 [0.15; 0.5] G2 U2 U3 N23)
      as (f2 & _ & [E2 | E2]);
      eexists; eexists; exact (Hrun _ _ _ _ E1 E2).
  - destruct (tick_on_three _ _ 0.05 0.15 0.5 [] G2 U1 U2 N12)
      as (f2 & _ & [E2 | E2]);
      eexists; eexists; exact (Hrun _ _ _ _ E1 E2).
Qed.

Lemma listFlights_answer_witness :
  store_ok sample_store /\
  exists resp s' ds',
    listFlights sample_store request_clock request_draws = Done (resp, s') ds' /\
    resp = Json_list (store_values s') /\
    (forall i k f, nth_error sample_store i = Some (k, f) ->
       exists f' da db,
         nth_error s' i = Some (k, f') /\
         tick f (request_clock i) da = Done f' db) /\
    map id (store_values s') = store_keys sample_store.
Proof.
  pose proof sample_store_ok as H1.
  split; [exact H1 |].
  destruct listFlights_sample_run as (s' & ds' & H2).
  destruct (listFlights_answer _ _ _ _ _ _ H1 H2) as (Ha & _ & Hb & Hc & _).
  exists (Json_list (store_values s')), s', ds'.
  split; [exact H2 |]. split; [exact Ha |]. split; [exact Hb | exact Hc].
Defined.

(** Every flight the loop has ticked is stamped with a reading of the
    clock or a later time. *)
Lemma tickEach_stamped (s : Store) :
  forall clock ds s' ds',
    tickEach s clock ds = Done s' ds' ->
    Forall (fun kf => exists j, (clock j <= updatedAt (snd kf))%Z) s'.
Proof.
  induction s as [| [k f] s IH]; intros clock ds s' ds' H; simpl in H.
  - unfold ret in H. injection H as <- _. constructor.
  - unfold bind, ret in H.
    destruct (tick f (clock O) ds) as [f' ds1 | |] eqn:Etick; [| discriminate ..].
    destruct (tickEach s (later clock) ds1) as [s1 ds2 | |] eqn:Erest;
      [| discriminate ..].
    injection H as <- <-. constructor.
    + exists O. cbn [snd].
      apply tick_frame in Etick as (_ & _ & _ & _ & _ & Hu). lia.
    + apply IH in Erest. rewrite Forall_forall in Erest.
      apply Forall_forall. intros kf Hkf.
      destruct (Erest kf Hkf) as [j Hj]. exists (S j). exact Hj.
Qed.

(** A store whose flights are all stamped no earlier than every reading
    of the clock is left alone by the loop. *)
Lemma tickEach_idle (s : Store) :
  forall clock ds,
    Forall (fun kf => forall i, (clock i <= updatedAt (snd kf))%Z) s ->
    tickEach s clock ds = Done s ds.
Proof.
  induction s as [| [k f] s IH]; intros clock ds Hall; simpl.
  - reflexivity.
  - inversion Hall as [| ? ? Hf Hrest]; subst. cbn [snd] in Hf.
    unfold bind, ret.
    rewrite tick_idle by apply Hf.
    rewrite IH; [reflexivity |].
    apply Forall_forall. intros kf Hkf i.
    rewrite Forall_forall in Hrest. exact (Hrest kf Hkf (S i)).
Qed.

(** X28.  A second list request whose clock readings are not later than
    those of the first gets the same answer: the store stays as the first
    request left it and no draw is consumed. *)
Theorem listFlights_again
  (s s' : Store) (clock clock' : nat -> Z) (ds ds' ds'' : list R)
  (resp : Response) :
  listFlights s clock ds = Done (resp, s') ds' ->
  (forall i j, (clock' i <= clock j)%Z) ->
  listFlights s' clock' ds'' = Done (resp, s') ds''.
Proof.
  intros H Hclock. unfold listFlights, bind, ret in H.
  destruct (tickEach s clock ds) as [s1 ds1 | |] eqn:Eeach; [| discriminate ..].
  injection H as <- <- <-.
  apply tickEach_stamped in Eeach.
  unfold listFlights, bind, ret.
  rewrite tickEach_idle; [reflexivity |].
  apply Forall_forall. intros kf Hkf i.
  rewrite Forall_forall in Eeach. destruct (Eeach kf Hkf) as [j Hj].
  specialize (Hclock i j). lia.
Qed.

Lemma listFlights_again_witness :
  listFlights [("Z5a1xk9Q"%string, cruising_SYD)] (fun _ => 60000%Z) [0.125]
  = Done (Json_list [cruising_SYD_ticked],
          [("Z5a1xk9Q"%string, cruising_SYD_ticked)]) [] /\
  (forall i j : nat, ((fun _ : nat => 60000) i <= (fun _ : nat => 60000) j)%Z) /\
  listFlights [("Z5a1xk9Q"%string, cruising_SYD_ticked)] (fun _ => 60000%Z) [0.9]
  = Done (Json_list [cruising_SYD_ticked],
          [("Z5a1xk9Q"%string, cruising_SYD_ticked)]) [0.9].
Proof.
  assert (H1 : listFlights [("Z5a1xk9Q"%string, cruising_SYD)]
                 (fun _ => 60000%Z) [0.125]
               = Done (Json_list [cruising_SYD_ticked],
                       [("Z5a1xk9Q"%string, cruising_SYD_ticked)]) []).
  { unfold listFlights.
    change (tickEach [("Z5a1xk9Q"%string, cruising_SYD)] (fun _ => 60000%Z))
      with (bind (tick cruising_SYD 60000)
              (fun f' => bind (ret []) (fun s'' => ret (("Z5a1xk9Q"%string, f') :: s'')))).
    unfold bind at 1. unfold bind at 1.
    rewrite cruising_SYD_tick. reflexivity. }
  assert (H2 : forall i j : nat,
             ((fun _ : nat => 60000) i <= (fun _ : nat => 60000) j)%Z)
    by (intros i j; lia).
  split; [exact H1 |]. split; [exact H2 |].
  exact (listFlights_again _ _ _ _ _ _ [0.9] _ H1 H2).
Defined.
